(** * End-to-end test helpers of the playground suites

    A shallow embedding of [playground/testUtils.ts] and of the Playwright
    test environment ([PlaywrightEnvironment.setup] / [teardown]).

    The helpers are glue around the JavaScript runtime: strings, regular
    expressions, [process.env], the file system, the browser page and the
    test framework's [expect].  The embedding keeps every helper as a
    function of the same name; what the runtime contributes is either
    written out (string search, the two regular-expression literals of the
    file, number formatting) or gathered in the class [Runtime] below. *)

From Stdlib Require Import ZArith NArith String Ascii List Bool Lia.
From stdpp Require Import base option gmap strings list.

Open Scope string_scope.

#[local] Arguments String.append !_ _ : simpl nomatch.

(** ** JavaScript built-ins used by the helpers *)

Module Js.

(** A JavaScript string is a sequence of code units; the model keeps the
    code units below 256, one [ascii] each. *)

Definition code (c : ascii) : N := N_of_ascii c.

(** [\d], [\s] and [\w] of a regular expression without the [u] and [i]
    flags, on code units below 256. *)
Definition is_digit (c : ascii) : bool :=
  ((48 <=? code c) && (code c <=? 57))%N.

Definition is_space (c : ascii) : bool :=
  (((9 <=? code c) && (code c <=? 13)) || (code c =? 32) || (code c =? 160))%N.

Definition is_word (c : ascii) : bool :=
  (is_digit c
   || ((65 <=? code c) && (code c <=? 90))
   || ((97 <=? code c) && (code c <=? 122))
   || (code c =? 95))%N.

(** [s.startsWith(pat)] *)
Fixpoint startsWith (s pat : string) {struct pat} : bool :=
  match pat, s with
  | "", _ => true
  | String _ _, "" => false
  | String p pat', String c s' => if Ascii.eqb p c then startsWith s' pat' else false
  end.

(** [s.indexOf(pat)]: the index of the first occurrence, or [-1]. *)
Fixpoint indexOf_from (i : Z) (s pat : string) : Z :=
  if startsWith s pat then i
  else match s with
       | "" => (-1)%Z
       | String _ s' => indexOf_from (i + 1) s' pat
       end.

Definition indexOf (s pat : string) : Z := indexOf_from 0 s pat.

(** [s.includes(pat)] *)
Definition includes (s pat : string) : bool :=
  negb (indexOf s pat =? -1)%Z.

(** [s.replace(/c/g, d)] for a one-character pattern [c]. *)
Fixpoint replaceAll_char (c d : ascii) (s : string) : string :=
  match s with
  | "" => ""
  | String x s' => String (if Ascii.eqb x c then d else x) (replaceAll_char c d s')
  end.

(** Truthiness of [process.env.X]: an environment variable is a string
    when it is defined, and a string is truthy unless it is empty. *)
Definition truthy (v : option string) : bool :=
  match v with
  | Some (String _ _) => true
  | _ => false
  end.

(** Errors the helpers can raise or let through. *)
Inductive Error : Type :=
| AssertionError (actual expected : string)   (* a failed [expect(actual).toMatch(expected)] *)
| ErrorMsg (message : string)                 (* [new Error(message)] *)
| TypeError (what : string)
| SyntaxError (pattern : string)              (* [new RegExp(pattern)] on an ill-formed pattern *)
| ENOENT (path : string)
| EISDIR (path : string)
| ENOTDIR (path : string)
| Raised (tag : string).                      (* thrown by a callback or the runtime *)

(** Completion of a call: it returns or it throws. *)
Inductive completion (A : Type) : Type :=
| Normal (a : A)
| Throw (e : Error).
Arguments Normal {A} a.
Arguments Throw {A} e.

(** Numbers, as far as [parseInt] of a run of digits produces them. *)
Inductive number : Type :=
| NaN
| Int (n : N)
| Infinity.

(** A regular expression object (without the sticky flag) is observed by
    the helpers only through whether [exec] finds a match somewhere in a
    string. *)
Record RegExp : Type := { re_test : string -> bool }.

(** The syntax characters of a pattern; a pattern without them is a plain
    sequence of pattern characters. *)
Definition is_syntax_character (c : ascii) : bool :=
  existsb (Ascii.eqb c) (list_ascii_of_string "^$\.*+?()[]{}|").

Fixpoint plain_pattern (p : string) : bool :=
  match p with
  | "" => true
  | String c p' => negb (is_syntax_character c) && plain_pattern p'
  end.

(** The longest prefix of [s] whose characters satisfy [p], and the rest:
    what a greedy [c+] or [c*] consumes. *)
Fixpoint span (p : ascii -> bool) (s : string) : string * string :=
  match s with
  | "" => ("", "")
  | String c s' =>
      if p c then let (run, rest) := span p s' in (String c run, rest)
      else ("", s)
  end.

(** [s] without its prefix [lit], when it starts with it. *)
Fixpoint strip_prefix (lit s : string) : option string :=
  match lit, s with
  | "", _ => Some s
  | String _ _, "" => None
  | String l lit', String c s' => if Ascii.eqb l c then strip_prefix lit' s' else None
  end.

(** [re.exec(s)] for a pattern that is tried at every position from the
    left: [here] is the attempt at the start of its argument. *)
Fixpoint exec_leftmost {A} (here : string -> option A) (s : string) : option A :=
  match here s with
  | Some m => Some m
  | None => match s with
            | "" => None
            | String _ s' => exec_leftmost here s'
            end
  end.

(** [arr.find(cb)] for a callback that may throw. *)
Fixpoint Array_find {A} (cb : A -> completion bool) (l : list A) : completion (option A) :=
  match l with
  | [] => Normal None
  | x :: l' => match cb x with
               | Normal true => Normal (Some x)
               | Normal false => Array_find cb l'
               | Throw e => Throw e
               end
  end.

(** A property of an object literal, looked up by name. *)
Fixpoint obj_get {A} (o : list (string * A)) (k : string) : option A :=
  match o with
  | [] => None
  | (k', v) :: o' => if String.eqb k' k then Some v else obj_get o' k
  end.

Definition Object_keys {A} (o : list (string * A)) : list string := map fst o.

(** [n.toString(16)] *)
Definition hex_digit (d : N) : ascii :=
  ascii_of_N (if (d <? 10)%N then 48 + d else 87 + d).

Fixpoint hex_digits (fuel : nat) (n : N) (acc : string) : string :=
  let acc' := String (hex_digit (n mod 16)) acc in
  match fuel with
  | O => acc'
  | S fuel' => if (n / 16 =? 0)%N then acc' else hex_digits fuel' (n / 16) acc'
  end.

Definition Number_toString16 (x : number) : string :=
  match x with
  | NaN => "NaN"
  | Infinity => "Infinity"
  | Int n => hex_digits (N.to_nat (N.log2 n)) n ""
  end.

(** The value of a run of decimal digits, most significant first. *)
Fixpoint decimal_value (acc : N) (s : string) : N :=
  match s with
  | "" => acc
  | String c s' => decimal_value (10 * acc + (code c - 48)) s'
  end.

End Js.
Export Js.

(** ** What the surrounding runtime contributes *)

(** Parts of the environment that are not code of this repository.  Each
    field is a parameter of the development; no theorem assumes anything
    about it unless it says so. *)
Class Runtime : Type := {
  (** [process.env] *)
  process_env : gmap string string;
  (** [expect.getState().testPath], the file of the running test *)
  testPath : string;
  (** [__dirname] of [testUtils.ts] *)
  dirname : string;
  (** [os.tmpdir()] *)
  tmpdir : string;
  (** Node's [path.resolve(...)] and [path.join(...)] *)
  path_resolve : list string -> string;
  path_join : list string -> string;
  (** The [css-color-names] table: its properties in order, name first,
      hex value second. *)
  colors : list (string * string);
  (** The Number value of an integer at or above 2^53, where it need not be
      the integer itself. *)
  round_large : N -> number;
  (** [new RegExp(p)] for a pattern [p] that uses syntax characters. *)
  compile_syntax : string -> completion RegExp;
  (** Handles to DOM elements; [page.$(selector)], which yields [null] when
      nothing matches; [getComputedStyle(el).color] read through
      [el.evaluate]. *)
  ElementHandle : Type;
  page_query : string -> completion (option ElementHandle);
  computed_color : ElementHandle -> completion string;
  (** The base environment's [setup] and [teardown], Playwright's
      [chromium.connect], [browser.newPage] and [browser.close]. *)
  Browser : Type;
  Page : Type;
  super_setup : completion unit;
  super_teardown : completion unit;
  chromium_connect : string -> completion Browser;
  browser_newPage : Browser -> completion Page;
  browser_close : Browser -> completion unit
}.

(** ** The world the helpers act on *)

(** An entry of the file system: a regular file with its text, or a
    directory with the names [readdirSync] lists, in that order. *)
Inductive Node : Type :=
| File (content : string)
| Dir (entries : list string).

(** What a helper does that can be observed from outside. *)
Inductive Event : Type :=
| EvRead (path : string)
| EvReaddir (path : string)
| EvWrite (path content : string)
| EvPoll
| EvSleep (ms : N)
| EvExpectToMatch (actual expected : string)
| EvSuperSetup
| EvSuperTeardown
| EvConnect (wsEndpoint : string)
| EvNewPage
| EvClose.

Record World : Type := mkWorld {
  fs : gmap string Node;
  trace : list Event
}.

(** Computations: a state monad with exceptions.  The helpers of
    [testUtils.ts] run over the [World]; the methods of the test
    environment run over their object and the [World]. *)
Definition StateM (S A : Type) : Type := S -> completion A * S.

Abbreviation M := (StateM World).

Definition ret {S A} (a : A) : StateM S A := fun st => (Normal a, st).

Definition throw {S A} (e : Error) : StateM S A := fun st => (Throw e, st).

Definition bind {S A B} (m : StateM S A) (k : A -> StateM S B) : StateM S B :=
  fun st => match m st with
            | (Normal a, st') => k a st'
            | (Throw e, st') => (Throw e, st')
            end.

Definition lift {S A} (c : completion A) : StateM S A := fun st => (c, st).

Definition emit (e : Event) : M unit :=
  fun w => (Normal tt, mkWorld (fs w) (trace w ++ [e])).

Notation "'let!' x ':=' m 'in' k" := (bind m (fun x => k))
  (at level 10, x name, m at level 100, k at level 200, only parsing).
Notation "'run!' m 'in' k" := (bind m (fun _ => k))
  (at level 10, m at level 100, k at level 200, only parsing).

(** [fs.readFileSync(path, 'utf-8')].  A path without an entry is
    reported as [ENOENT]; Node reports [ENOTDIR] instead when the path
    runs through a regular file, a case the flat map of paths does not
    tell apart. *)
Definition readFileSync (path : string) : M string :=
  run! emit (EvRead path) in
  fun w => match fs w !! path with
           | Some (File c) => (Normal c, w)
           | Some (Dir _) => (Throw (EISDIR path), w)
           | None => (Throw (ENOENT path), w)
           end.

(** [fs.writeFileSync(path, content)] *)
Definition writeFileSync (path content : string) : M unit :=
  run! emit (EvWrite path content) in
  fun w => match fs w !! path with
           | Some (Dir _) => (Throw (EISDIR path), w)
           | _ => (Normal tt, mkWorld (<[path := File content]> (fs w)) (trace w))
           end.

(** [fs.readdirSync(path)], with the same report for a path without an
    entry. *)
Definition readdirSync (path : string) : M (list string) :=
  run! emit (EvReaddir path) in
  fun w => match fs w !! path with
           | Some (Dir names) => (Normal names, w)
           | Some (File _) => (Throw (ENOTDIR path), w)
           | None => (Throw (ENOENT path), w)
           end.

(** ** [playground/testUtils.ts] *)

(** [ports], in the order of the object literal. *)
Definition ports : list (string * Z) :=
  [ ("cli", 9510); ("cli-module", 9511); ("legacy/ssr", 9520); ("lib", 9521);
    ("optimize-missing-deps", 9522); ("ssr-deps", 9600); ("ssr-html", 9601);
    ("ssr-pug", 9602); ("ssr-react", 9603); ("ssr-vue", 9604);
    ("ssr-webworker", 9605); ("css/postcss-caching", 5005);
    ("css/postcss-plugins-different-dir", 5006) ]%Z.

(** [slash(p)]: [p.replace(/\\/g, '/')] *)
Definition slash (p : string) : string := replaceAll_char "\" "/" p.

(** The class [[\w-]]. *)
Definition is_name_char (c : ascii) : bool := is_word c || Ascii.eqb c "-".

(** One attempt of [/playground\/([\w-]+)\//] at the start of [s]; the
    result is the first capture.  The class [[\w-]] and the [/] after it
    share no character, so the greedy run is the only candidate. *)
Definition playground_here (s : string) : option string :=
  match strip_prefix "playground/" s with
  | None => None
  | Some s1 =>
      let (name, s2) := span is_name_char s1 in
      match name, strip_prefix "/" s2 with
      | String _ _, Some _ => Some name
      | _, _ => None
      end
  end.

(** One attempt of [/rgb\((\d+),\s*(\d+),\s*(\d+)\)/] at the start of [s];
    the result is the three captures.  Neighbouring parts of the pattern
    share no character, so each greedy run is the only candidate. *)
Definition rgb_here (s : string) : option (string * string * string) :=
  match strip_prefix "rgb(" s with
  | None => None
  | Some s1 =>
      let (rs, s2) := span is_digit s1 in
      match rs, strip_prefix "," s2 with
      | String _ _, Some s3 =>
          let (_, s4) := span is_space s3 in
          let (gs, s5) := span is_digit s4 in
          match gs, strip_prefix "," s5 with
          | String _ _, Some s6 =>
              let (_, s7) := span is_space s6 in
              let (bs, s8) := span is_digit s7 in
              match bs, strip_prefix ")" s8 with
              | String _ _, Some _ => Some (rs, gs, bs)
              | _, _ => None
              end
          | _, _ => None
          end
      | _, _ => None
      end
  end.

Section TestUtils.
Context `{Runtime}.

(** [isBuild = !!process.env.VITE_TEST_BUILD] and [isServe = !isBuild] *)
Definition isBuild : bool := truthy (process_env !! "VITE_TEST_BUILD").
Definition isServe : bool := negb isBuild.

(** [testDir()].  Without a match [testName] is [undefined], which
    [path.resolve] rejects with a [TypeError]. *)
Definition testDir : completion string :=
  let testName := exec_leftmost playground_here (slash testPath) in
  match testName with
  | Some name => Normal (path_resolve [dirname; "../playground-temp"; name])
  | None => Throw (TypeError "path")
  end.

(** [hexToNameMap]: every [color] of [Object.keys(colors)], in order,
    stores [hexToNameMap[colors[color]] = color]. *)
Definition hexToNameMap : gmap string string :=
  foldl (fun m color =>
           match obj_get colors color with
           | Some hex => <[hex := color]> m
           | None => m
           end)
        ∅ (Object_keys colors).

(** [parseInt(s, 10)] for a run of decimal digits, which is what the
    captures of [\d+] are; [NaN] without a leading digit. *)
Definition parseInt10 (s : string) : number :=
  match span is_digit s with
  | ("", _) => NaN
  | (digits, _) =>
      let n := decimal_value 0 digits in
      if (n <? 2 ^ 53)%N then Int n else round_large n
  end.

Definition componentToHex (c : number) : string :=
  let hex := Number_toString16 c in
  if (String.length hex =? 1)%nat then "0" +:+ hex else hex.

Definition rgbToHex (rgb : string) : string :=
  match exec_leftmost rgb_here rgb with
  | Some (rs, gs, bs) =>
      "#" +:+ componentToHex (parseInt10 rs)
          +:+ componentToHex (parseInt10 gs)
          +:+ componentToHex (parseInt10 bs)
  | None => "#000000"
  end.

(** [timeout(n)], awaited: the caller sleeps [n] milliseconds. *)
Definition timeout (n : N) : M unit := emit (EvSleep n).

(** [toEl(el)]; the result is [None] when [page.$] finds nothing. *)
Definition toEl (el : string + ElementHandle) : M (option ElementHandle) :=
  match el with
  | inl selector => lift (page_query selector)
  | inr handle => ret (Some handle)
  end.

(** [getColor(el)]; [el.evaluate] on [null] is a [TypeError]. *)
Definition getColor (el : string + ElementHandle) : M string :=
  let! el := toEl el in
  match el with
  | None => throw (TypeError "evaluate")
  | Some el =>
      let! rgb := lift (computed_color el) in
      ret (default rgb (hexToNameMap !! rgbToHex rgb))
  end.

Definition readFile (filename : string) : M string :=
  let! dir := lift testDir in
  readFileSync (path_resolve [dir; filename]).

(** [editFile(filename, replacer, runInBuild = false)] *)
Definition editFile (filename : string) (replacer : string -> completion string)
    (runInBuild : option bool) : M unit :=
  let runInBuild := default false runInBuild in
  if isBuild && negb runInBuild then ret tt
  else
    let! dir := lift testDir in
    let filename := path_resolve [dir; filename] in
    let! content := readFileSync filename in
    let! modified := lift (replacer content) in
    writeFileSync filename modified.

(** [listAssets(base = '')] *)
Definition listAssets (base : option string) : M (list string) :=
  let base := default "" base in
  let! dir := lift testDir in
  let assetsDir := path_join [dir; "dist"; base; "assets"] in
  readdirSync assetsDir.

(** [new RegExp(p)], which [String.prototype.match] applies to a string
    argument.  A pattern of plain pattern characters matches where it
    occurs; the others are left to the runtime. *)
Definition RegExpCreate (p : string) : completion RegExp :=
  if plain_pattern p then Normal {| re_test := fun s => includes s p |}
  else compile_syntax p.

(** Whether [file.match(m)] is truthy (an array of matches) or not
    ([null]). *)
Definition String_match (file : string) (m : string + RegExp) : completion bool :=
  match m with
  | inl pattern =>
      match RegExpCreate pattern with
      | Normal re => Normal (re_test re file)
      | Throw e => Throw e
      end
  | inr re => Normal (re_test re file)
  end.

(** [findAssetFile(match, base = '')] *)
Definition findAssetFile (m : string + RegExp) (base : option string) : M string :=
  let base := default "" base in
  let! dir := lift testDir in
  let assetsDir := path_join [dir; "dist"; base; "assets"] in
  let! files := readdirSync assetsDir in
  let! file := lift (Array_find (fun file => String_match file m) files) in
  match file with
  | Some (String _ _ as file) => readFileSync (path_resolve [assetsDir; file])
  | _ => ret ""
  end.

(** Modelled from the spec: [expect(actual).toMatch(expected)] of the
    test framework, whose code is not part of the sources.  For a string
    [expected] it is "a substring assertion that fails the test if the
    expected value is absent". *)
Definition expect_toMatch (actual expected : string) : M unit :=
  run! emit (EvExpectToMatch actual expected) in
  if includes actual expected then ret tt
  else throw (AssertionError actual expected).

(** [process.env.CI ? 100 : 50] *)
Definition maxTries : nat :=
  if truthy (process_env !! "CI") then 100 else 50.

(** The [for] loop of [untilUpdated], entered with counter [tries] and
    [remaining] iterations to go before [tries < maxTries] fails.
    [poll k] is what the [k]-th call of the getter (counted from 0)
    yields once awaited: a string, [null] or [undefined] ([None]), or an
    exception. *)
Fixpoint untilUpdated_loop (poll : nat -> completion (option string))
    (expected : string) (remaining tries : nat) : M unit :=
  match remaining with
  | O => ret tt
  | S remaining' =>
      run! emit EvPoll in
      let! polled := lift (poll tries) in
      let actual := default "" polled in
      if (-1 <? indexOf actual expected)%Z || (tries =? maxTries - 1)%nat
      then expect_toMatch actual expected
      else
        run! timeout 50 in
        untilUpdated_loop poll expected remaining' (S tries)
  end.

(** [untilUpdated(poll, expected, runInBuild = false)] *)
Definition untilUpdated (poll : nat -> completion (option string))
    (expected : string) (runInBuild : option bool) : M unit :=
  let runInBuild := default false runInBuild in
  if isBuild && negb runInBuild then ret tt
  else untilUpdated_loop poll expected maxTries 0.

End TestUtils.

(** ** The Playwright test environment *)

Module PlaywrightEnvironment.
Section Env.
Context `{Runtime}.

(** The fields of the environment object: [testPath], [browser] and
    [global.page], and whether [console.warn] has been wrapped. *)
Record t : Type := mk {
  this_testPath : string;
  this_browser : option Browser;
  global_page : option Page;
  warn_wrapped : bool
}.

(** [DIR] *)
Definition DIR : string := path_join [tmpdir; "jest_playwright_global_setup"].

(** A computation on the [World] run inside a method of the object. *)
Definition in_world {A} (m : M A) : StateM (t * World) A :=
  fun '(this, w) => let (r, w') := m w in (r, (this, w')).

Definition this_get : StateM (t * World) t :=
  fun '(this, w) => (Normal this, (this, w)).

Definition this_set (f : t -> t) : StateM (t * World) unit :=
  fun '(this, w) => (Normal tt, (f this, w)).

(** The wrapper installed on [console.warn]: whether a message is passed
    on to the original [warn]. *)
Definition warn_forwards (msg : string) : bool :=
  negb (includes msg "@vue/reactivity-transform")
  && negb (includes msg "Generated an empty chunk").

Definition setup : StateM (t * World) unit :=
  run! in_world (run! emit EvSuperSetup in lift super_setup) in
  let! wsEndpoint := in_world (readFileSync (path_join [DIR; "wsEndpoint"])) in
  match wsEndpoint with
  | "" => throw (ErrorMsg "wsEndpoint not found")
  | String _ _ =>
      let! this := this_get in
      if negb (includes (this_testPath this) "playground") then ret tt
      else
        let! browser := in_world (run! emit (EvConnect wsEndpoint) in
                                  lift (chromium_connect wsEndpoint)) in
        run! this_set (fun o => mk (this_testPath o) (Some browser)
                                   (global_page o) (warn_wrapped o)) in
        let! page := in_world (run! emit EvNewPage in
                               lift (browser_newPage browser)) in
        this_set (fun o => mk (this_testPath o) (this_browser o) (Some page) true)
  end.

Definition teardown : StateM (t * World) unit :=
  let! this := this_get in
  run! match this_browser this with
       | Some browser => in_world (run! emit EvClose in lift (browser_close browser))
       | None => ret tt
       end in
  in_world (run! emit EvSuperTeardown in lift super_teardown).

End Env.
End PlaywrightEnvironment.

(** ** A concrete runtime

    A POSIX-like runtime on which the helpers can be run: enough of
    [path.join] and [path.resolve] for paths made of plain segments, [.]
    and [..], a few entries of the colour table, and a page whose element
    handles are the computed colours themselves. *)

Module Sample.

Fixpoint segments (s cur : string) : list string :=
  match s with
  | "" => [cur]
  | String c s' =>
      if Ascii.eqb c "/" then cur :: segments s' ""
      else segments s' (cur +:+ String c "")
  end.

Definition normalize_segments (segs : list string) : list string :=
  rev (fold_left (fun stack seg =>
                    if String.eqb seg "" || String.eqb seg "." then stack
                    else if String.eqb seg ".." then tail stack
                    else seg :: stack)
                 segs []).

Definition normalize (p : string) : string :=
  (if startsWith p "/" then "/" else "")
    +:+ String.concat "/" (normalize_segments (segments p "")).

Definition join (parts : list string) : string :=
  normalize (String.concat "/" (List.filter (fun p => negb (String.eqb p "")) parts)).

Definition resolve (parts : list string) : string :=
  normalize (fold_left (fun acc p => if startsWith p "/" then p
                                     else acc +:+ "/" +:+ p)
                       parts "/").

(** Some entries of [css-color-names], in the order of the table. *)
Definition css_colors : list (string * string) :=
  [ ("aqua", "#00ffff"); ("black", "#000000"); ("blue", "#0000ff");
    ("cyan", "#00ffff"); ("red", "#ff0000"); ("white", "#ffffff") ].

(** The runtime for a given [process.env] and test file.  The browser
    always connects; patterns with syntax characters play no part in the
    runs below and are rejected. *)
Definition runtime (env : gmap string string) (test_path : string) : Runtime :=
  {| process_env := env;
     testPath := test_path;
     dirname := "/repo/playground";
     tmpdir := "/tmp";
     path_resolve := resolve;
     path_join := join;
     colors := css_colors;
     round_large := Int;
     compile_syntax := fun p => Throw (SyntaxError p);
     ElementHandle := string;
     page_query := fun selector => Normal None;
     computed_color := fun el => Normal el;
     Browser := unit;
     Page := unit;
     super_setup := Normal tt;
     super_teardown := Normal tt;
     chromium_connect := fun _ => Normal tt;
     browser_newPage := fun _ => Normal tt;
     browser_close := fun _ => Normal tt |}.

Definition serve_env : gmap string string := ∅.
Definition build_env : gmap string string := {[ "VITE_TEST_BUILD" := "1" ]}.
Definition ci_env : gmap string string := {[ "CI" := "true" ]}.

Definition test_file : string := "/repo/playground/assets/__tests__/assets.spec.ts".

Definition serve : Runtime := runtime serve_env test_file.
Definition build : Runtime := runtime build_env test_file.
Definition ci : Runtime := runtime ci_env test_file.

(** The per-test directory and its [dist/assets] under these runtimes. *)
Definition test_dir : string := "/repo/playground-temp/assets".
Definition assets_dir : string := "/repo/playground-temp/assets/dist/assets".

(** A world with one source file and a built [assets] directory. *)
Definition world : World :=
  mkWorld
    (list_to_map
       [ ("/repo/playground-temp/assets/index.html", File "<h1>assets</h1>");
         (assets_dir, Dir ["index.js"; "index.css"]);
         ("/repo/playground-temp/assets/dist/assets/index.js", File "console.log(1)");
         ("/repo/playground-temp/assets/dist/assets/index.css", File "h1{color:red}") ])
    [].

(** A getter that always yields [s]. *)
Definition always (s : string) : nat -> completion (option string) :=
  fun _ => Normal (Some s).

End Sample.

(** ** Vocabulary of the statements *)

(** The number a string of lower-case hexadecimal digits denotes. *)
Definition hex_digit_value (c : ascii) : N :=
  if is_digit c then (code c - 48)%N else (code c - 87)%N.

Fixpoint hex_value (acc : N) (s : string) : N :=
  match s with
  | "" => acc
  | String c s' => hex_value (16 * acc + hex_digit_value c) s'
  end.

(** [pat] occurs in [s] as a substring. *)
Definition occurs_in (pat s : string) : Prop :=
  exists pre post, s = pre +:+ pat +:+ post.

Fixpoint all_chars (p : ascii -> bool) (s : string) : bool :=
  match s with
  | "" => true
  | String c s' => p c && all_chars p s'
  end.

(** What a greedy run leaves does not start with a character of the
    class. *)
Definition stops (p : ascii -> bool) (rest : string) : Prop :=
  match rest with
  | "" => True
  | String c _ => p c = false
  end.

(** A non-empty run of decimal digits, and a possibly empty run of white
    space. *)
Definition digit_run (s : string) : Prop := s <> "" /\ all_chars is_digit s = true.
Definition space_run (s : string) : Prop := all_chars is_space s = true.

(** The text [rgb(R,G,B)] with white space [w1], [w2] after the commas. *)
Definition rgb_text (rs w1 gs w2 bs : string) : string :=
  "rgb(" +:+ rs +:+ "," +:+ w1 +:+ gs +:+ "," +:+ w2 +:+ bs +:+ ")".

(** [s] starts with a text of the literal form [rgb(R, G, B)]. *)
Definition rgb_prefix (s rs gs bs : string) : Prop :=
  exists w1 w2 post,
    s = rgb_text rs w1 gs w2 bs +:+ post
    /\ digit_run rs /\ digit_run gs /\ digit_run bs
    /\ space_run w1 /\ space_run w2.

(** [s] starts with [playground/name/], for a non-empty [name] of word
    characters and dashes. *)
Definition playground_prefix (s name : string) : Prop :=
  exists post,
    s = "playground/" +:+ name +:+ "/" +:+ post
    /\ name <> "" /\ all_chars is_name_char name = true.

(** [s] contains a text of the literal form [rgb(R, G, B)]. *)
Definition contains_rgb (s : string) : Prop :=
  exists pre rest rs gs bs, s = pre +:+ rest /\ rgb_prefix rest rs gs bs.

(** The getter never yields a string in which [expected] occurs: each call
    returns, and what it returns ([null] and [undefined] counting as the
    empty string) does not contain [expected]. *)
Definition never_matching (poll : nat -> completion (option string))
    (expected : string) : Prop :=
  forall k, exists v, poll k = Normal v /\ ~ occurs_in expected (default "" v).

(** [n] attempts that did not match, each followed by the 50ms sleep. *)
Fixpoint missed_attempts (n : nat) : list Event :=
  match n with
  | O => []
  | S n' => EvPoll :: EvSleep 50 :: missed_attempts n'
  end.

Definition count_polls (evs : list Event) : nat :=
  length (List.filter (fun e => match e with EvPoll => true | _ => false end) evs).

Definition count_sleeps (evs : list Event) : nat :=
  length (List.filter (fun e => match e with EvSleep _ => true | _ => false end) evs).

Definition is_connect (e : Event) : bool :=
  match e with EvConnect _ => true | _ => false end.

(** [toEl(el)] yields the handle [h]: [el] is [h], or a selector that
    [page.$] resolves to [h]. *)
Definition resolves_to `{Runtime} (el : string + ElementHandle) (h : ElementHandle) : Prop :=
  match el with
  | inl selector => page_query selector = Normal (Some h)
  | inr handle => handle = h
  end.

(** The regular expression [file.match(m)] matches with: [m] itself, or
    [new RegExp(m)] for a string [m]. *)
Definition regexp_of `{Runtime} (m : string + RegExp) (re : RegExp) : Prop :=
  match m with
  | inl pattern => RegExpCreate pattern = Normal re
  | inr re' => re' = re
  end.

(** The world [w] after the events [evs], the files untouched. *)
Definition after (w : World) (evs : list Event) : World :=
  mkWorld (fs w) (trace w ++ evs).

(** ** Source maps: [extractSourcemap] and [formatSourcemapForSnapshot] *)

(** The values a decoded source map is made of.  An object is the list of
    its properties, in property order. *)
#[warnings="-register-all"]
Inductive JsValue : Type :=
| JUndefined
| JNull
| JBool (b : bool)
| JNum (z : Z)
| JStr (s : string)
| JArr (items : list JsValue)
| JObj (props : list (string * JsValue)).

(** What these two helpers take from other packages: [normalizePath] of
    [vite], and [fromComment(comment).toObject()] of [convert-source-map],
    which throws on a comment it cannot decode. *)
Class Sourcemaps : Type := {
  normalizePath : string -> string;
  fromComment_toObject : string -> completion (list (string * JsValue))
}.

(** [s.trimStart()], [s.trimEnd()] and [s.trim()]: white space and line
    terminators, the characters of [\s], are removed at the ends. *)
Fixpoint trimStart (s : string) : string :=
  match s with
  | "" => ""
  | String c s' => if is_space c then trimStart s' else s
  end.

Fixpoint trimEnd (s : string) : string :=
  match s with
  | "" => ""
  | String c s' =>
      match trimEnd s' with
      | "" => if is_space c then "" else String c ""
      | t => String c t
      end
  end.

Definition trim (s : string) : string := trimStart (trimEnd s).

(** [s.split(sep)] for a one-character separator; the result is never
    empty. *)
Fixpoint split_char (sep : ascii) (s : string) : list string :=
  match s with
  | "" => [""]
  | String c s' =>
      if Ascii.eqb c sep then "" :: split_char sep s'
      else match split_char sep s' with
           | [] => [String c ""]
           | l :: ls => String c l :: ls
           end
  end.

(** [s.replace(pat, rep)] for a string [pat] and a replacement without
    [$]: the first occurrence of [pat] is replaced. *)
Fixpoint replace_first (s pat rep : string) : string :=
  match strip_prefix pat s with
  | Some rest => rep +:+ rest
  | None => match s with
            | "" => ""
            | String c s' => String c (replace_first s' pat rep)
            end
  end.

(** [delete o[k]] and [o[k] = v] for a property [k] that [o] has. *)
Fixpoint obj_delete {A} (o : list (string * A)) (k : string) : list (string * A) :=
  match o with
  | [] => []
  | (k', v) :: o' => if String.eqb k' k then obj_delete o' k else (k', v) :: obj_delete o' k
  end.

Fixpoint obj_update {A} (o : list (string * A)) (k : string) (v : A) : list (string * A) :=
  match o with
  | [] => []
  | (k', v') :: o' =>
      if String.eqb k' k then (k', v) :: obj_update o' k v
      else (k', v') :: obj_update o' k v
  end.

(** [arr.map(cb)] for a callback that may throw. *)
Fixpoint Array_map {A B} (cb : A -> completion B) (l : list A) : completion (list B) :=
  match l with
  | [] => Normal []
  | x :: l' =>
      match cb x with
      | Throw e => Throw e
      | Normal y =>
          match Array_map cb l' with
          | Throw e => Throw e
          | Normal ys => Normal (y :: ys)
          end
      end
  end.

Section SourcemapHelpers.
Context `{Runtime} `{Sourcemaps}.

(** [extractSourcemap(content)] *)
Definition extractSourcemap (content : string) : completion (list (string * JsValue)) :=
  let lines := split_char "010" (trim content) in
  fromComment_toObject (List.last lines "").

(** The callback of [m.sources.map]: [source.replace(root, '/root')], a
    [TypeError] on anything but a string. *)
Definition replace_root (root : string) (source : JsValue) : completion JsValue :=
  match source with
  | JStr s => Normal (JStr (replace_first s root "/root"))
  | _ => Throw (TypeError "replace")
  end.

(** [formatSourcemapForSnapshot(map)] for an object [map]; [m.sources.map]
    is a [TypeError] unless [m.sources] is an array. *)
Definition formatSourcemapForSnapshot (map : list (string * JsValue))
    : completion (list (string * JsValue)) :=
  match testDir with
  | Throw e => Throw e
  | Normal dir =>
      let root := normalizePath dir in
      let m := map in
      let m := obj_delete m "file" in
      let m := obj_delete m "names" in
      match obj_get m "sources" with
      | Some (JArr sources) =>
          match Array_map (replace_root root) sources with
          | Normal sources' => Normal (obj_update m "sources" (JArr sources'))
          | Throw e => Throw e
          end
      | _ => Throw (TypeError "map")
      end
  end.

End SourcemapHelpers.

(** A decoder for the runs below: it accepts the comments that start with
    the source map marker and records the comment it was given. *)
Definition sample_sourcemaps : Sourcemaps :=
  {| normalizePath := fun p => p;
     fromComment_toObject := fun comment =>
       if startsWith comment "//# sourceMappingURL="
       then Normal [("comment", JStr comment)]
       else Throw (ErrorMsg "no source map") |}.

(** ** The constructor of the test environment *)

(** [new PlaywrightEnvironment(config, context)]: the object keeps
    [context.testPath]; no browser, no page, [console.warn] as it is. *)
Definition new_environment `{Runtime} (context_testPath : string) : PlaywrightEnvironment.t :=
  PlaywrightEnvironment.mk context_testPath None None false.

(** ** More vocabulary and sample data *)

(** The two hexadecimal digits of a number below 256. *)
Definition hex_byte (n : N) : string :=
  String (hex_digit (n / 16)) (String (hex_digit (n mod 16)) "").

(** No attempt [here] succeeds at a position inside [pre], when [pre] is
    followed by [rest]: a match that starts at [rest] is the leftmost. *)
Definition no_match_before {A} (here : string -> option A) (pre rest : string) : Prop :=
  forall pre1 c pre2, pre = pre1 +:+ String c pre2 -> here (String c pre2 +:+ rest) = None.

(** [s] neither starts nor ends with white space, and has no line feed. *)
Definition trimmed (s : string) : Prop := trimStart s = s /\ trimEnd s = s.

Definition one_line (s : string) : Prop :=
  all_chars (fun c => negb (Ascii.eqb c "010")) s = true.

Definition newline : string := String "010" "".

(** A runtime like [Sample.serve] whose browser may refuse the connection
    or the new page. *)
Definition sample_browser (connects opens_page : bool) : Runtime :=
  {| process_env := Sample.serve_env;
     testPath := Sample.test_file;
     dirname := "/repo/playground";
     tmpdir := "/tmp";
     path_resolve := Sample.resolve;
     path_join := Sample.join;
     colors := Sample.css_colors;
     round_large := Int;
     compile_syntax := fun p => Throw (SyntaxError p);
     ElementHandle := string;
     page_query := fun selector => Normal None;
     computed_color := fun el => Normal el;
     Browser := unit;
     Page := unit;
     super_setup := Normal tt;
     super_teardown := Normal tt;
     chromium_connect := fun _ => if connects then Normal tt else Throw (Raised "connect");
     browser_newPage := fun _ => if opens_page then Normal tt else Throw (Raised "newPage");
     browser_close := fun _ => Normal tt |}.

(** The sample world with the endpoint file written by the global setup. *)
Definition sample_endpoint : string := "/tmp/jest_playwright_global_setup/wsEndpoint".

Definition sample_world_ws : World :=
  mkWorld (<[sample_endpoint := File "ws://127.0.0.1:9222/devtools"]> (fs Sample.world)) [].

(** A test file outside the playground group. *)
Definition sample_unit_test : string := "/repo/packages/vite/src/node/__tests__/utils.spec.ts".

(** A decoded source map of the sample suite. *)
Definition sample_source_map : list (string * JsValue) :=
  [("version", JNum 3); ("file", JStr "a.js");
   ("sources", JArr [JStr "/repo/playground-temp/assets/src/a.ts"; JStr "other.ts"]);
   ("names", JArr []); ("mappings", JStr "AAAA")].

(** The events of [untilUpdated] itself: a poll, a sleep of 50ms, the
    substring assertion on [expected]. *)
Definition own_event (expected : string) (ev : Event) : Prop :=
  ev = EvPoll \/ ev = EvSleep 50 \/ exists actual, ev = EvExpectToMatch actual expected.

(** * Properties *)

(** ** Strings *)

Section Strings.

Lemma append_nil_r (s : string) : s +:+ "" = s.
Proof. induction s as [|c s IH]; simpl; [reflexivity | now rewrite IH]. Qed.

Lemma append_assoc (a b c : string) : (a +:+ b) +:+ c = a +:+ (b +:+ c).
Proof. induction a as [|x a IH]; simpl; [reflexivity | now rewrite IH]. Qed.

Lemma startsWith_spec (s pat : string) :
  startsWith s pat = true <-> exists post, s = pat +:+ post.
Proof.
  revert s; induction pat as [|p pat IH]; intros s; simpl.
  - split; [intros _; now exists s | reflexivity].
  - destruct s as [|c s].
    + split; [discriminate | intros [post E]; discriminate].
    + destruct (Ascii.eqb_spec p c) as [->|Hne].
      * rewrite IH. split; intros [post E]; exists post.
        -- now rewrite E.
        -- now injection E.
      * split; [discriminate | intros [post E]; injection E; congruence].
Qed.

Lemma indexOf_from_range (i : Z) (s pat : string) :
  (indexOf_from i s pat = -1 \/ i <= indexOf_from i s pat)%Z.
Proof.
  revert i; induction s as [|c s IH]; intros i; simpl.
  - destruct (startsWith "" pat); lia.
  - destruct (startsWith (String c s) pat); [lia|].
    destruct (IH (i + 1)%Z); lia.
Qed.

Lemma indexOf_from_found (i : Z) (s pat : string) :
  (0 <= i)%Z ->
  (indexOf_from i s pat <> -1)%Z <-> occurs_in pat s.
Proof.
  revert i; induction s as [|c s IH]; intros i Hi; simpl.
  - destruct (startsWith "" pat) eqn:E.
    + split; [intros _ | lia].
      apply startsWith_spec in E as [post E]. now exists "", post.
    + split; [congruence|]. intros [pre [post Hs]].
      destruct pre; [|discriminate]. simpl in Hs.
      assert (startsWith "" pat = true) by (apply startsWith_spec; eauto).
      congruence.
  - destruct (startsWith (String c s) pat) eqn:E.
    + split; [intros _ | lia].
      apply startsWith_spec in E as [post E]. now exists "", post.
    + rewrite IH by lia. split; intros [pre [post Hs]].
      * exists (String c pre), post. simpl. now rewrite Hs.
      * destruct pre as [|x pre]; simpl in Hs.
        -- assert (startsWith (String c s) pat = true)
             by (apply startsWith_spec; eauto).
           congruence.
        -- injection Hs as _ Hs. now exists pre, post.
Qed.

(** [includes] decides occurrence as a substring. *)
Lemma includes_spec (s pat : string) :
  includes s pat = true <-> occurs_in pat s.
Proof.
  unfold includes, indexOf. rewrite <- (indexOf_from_found 0) by lia.
  rewrite negb_true_iff, Z.eqb_neq. reflexivity.
Qed.

(** The loop's test [actual.indexOf(expected) > -1] is the same test. *)
Lemma indexOf_test (s pat : string) :
  (-1 <? indexOf s pat)%Z = includes s pat.
Proof.
  unfold includes, indexOf.
  destruct (indexOf_from_range 0 s pat) as [E|E].
  - rewrite E. reflexivity.
  - destruct (Z.ltb_spec (-1) (indexOf_from 0 s pat));
      destruct (Z.eqb_spec (indexOf_from 0 s pat) (-1)); simpl; lia.
Qed.

Lemma strip_prefix_spec (lit s rest : string) :
  strip_prefix lit s = Some rest <-> s = lit +:+ rest.
Proof.
  revert s; induction lit as [|l lit IH]; intros s; simpl.
  - split; [now intros [= ->] | now intros ->].
  - destruct s as [|c s]; [split; discriminate|].
    destruct (Ascii.eqb_spec l c) as [->|Hne].
    + rewrite IH. split; [now intros -> | now intros [= ->]].
    + split; [discriminate | intros [= ? ?]; congruence].
Qed.

Lemma span_sound (p : ascii -> bool) (s run rest : string) :
  span p s = (run, rest) ->
  s = run +:+ rest /\ all_chars p run = true /\ stops p rest.
Proof.
  revert run rest; induction s as [|c s IH]; intros run rest; simpl.
  - intros [= <- <-]. now repeat split.
  - destruct (p c) eqn:Hc.
    + destruct (span p s) as [run' rest'].
      destruct (IH run' rest' eq_refl) as (E1 & A1 & S1).
      intros [= <- <-]. simpl. rewrite Hc, A1, <- E1. now repeat split.
    + intros [= <- <-]. now repeat split.
Qed.

(** A run of the class followed by something outside it is exactly what
    the greedy run takes. *)
Lemma span_complete (p : ascii -> bool) (run rest : string) :
  all_chars p run = true -> stops p rest ->
  span p (run +:+ rest) = (run, rest).
Proof.
  intros A St. induction run as [|x run IH]; simpl in *.
  - destruct rest as [|c rest]; simpl in *; [reflexivity | now rewrite St].
  - apply andb_true_iff in A as [Hx A]. now rewrite Hx, IH.
Qed.

Lemma exec_leftmost_Some {A} (here : string -> option A) (s : string) (m : A) :
  exec_leftmost here s = Some m ->
  exists pre rest, s = pre +:+ rest /\ here rest = Some m.
Proof.
  induction s as [|c s IH]; simpl.
  - destruct (here "") eqn:E; [|discriminate].
    intros [= ->]. now exists "", "".
  - destruct (here (String c s)) eqn:E.
    + intros [= ->]. now exists "", (String c s).
    + intros Hs. destruct (IH Hs) as (pre & rest & -> & Hr).
      now exists (String c pre), rest.
Qed.

Lemma exec_leftmost_None {A} (here : string -> option A) (s : string) :
  exec_leftmost here s = None <->
  forall pre rest, s = pre +:+ rest -> here rest = None.
Proof.
  induction s as [|c s IH]; simpl.
  - destruct (here "") eqn:E.
    + split; [discriminate|]. intros Hn. rewrite (Hn "" "") in E; [discriminate|reflexivity].
    + split; [|reflexivity]. intros _ pre rest Hs.
      destruct pre; [|discriminate]. simpl in Hs. now subst.
  - destruct (here (String c s)) eqn:E.
    + split; [discriminate|]. intros Hn.
      rewrite (Hn "" (String c s)) in E; [discriminate|reflexivity].
    + rewrite IH. split; intros Hn pre rest Hs.
      * destruct pre as [|x pre]; simpl in Hs; [now subst|].
        injection Hs as _ Hs. eauto.
      * apply (Hn (String c pre)). simpl. now rewrite Hs.
Qed.

Lemma exec_leftmost_here {A} (here : string -> option A) (s : string) (m : A) :
  here s = Some m -> exec_leftmost here s = Some m.
Proof. intros E. destruct s; simpl; now rewrite E. Qed.

End Strings.

(** ** Numbers *)

Section Numbers.

Lemma hex_digit_value_digit (d : N) : (d < 16)%N -> hex_digit_value (hex_digit d) = d.
Proof.
  intros Hd.
  assert (In d (map N.of_nat (seq 0 16))) as Hin.
  { apply in_map_iff. exists (N.to_nat d). split; [lia|]. apply in_seq. lia. }
  simpl in Hin.
  repeat (destruct Hin as [<-|Hin]; [reflexivity|]). destruct Hin.
Qed.

Lemma hex_value_snoc (a : N) (s : string) (c : ascii) :
  hex_value a (s +:+ String c "") = (16 * hex_value a s + hex_digit_value c)%N.
Proof. revert a; induction s as [|x s IH]; intros a; simpl; [reflexivity | apply IH]. Qed.

Lemma hex_digits_acc (fuel : nat) (n : N) (acc : string) :
  hex_digits fuel n acc = hex_digits fuel n "" +:+ acc.
Proof.
  revert n acc; induction fuel as [|fuel IH]; intros n acc; simpl; [reflexivity|].
  destruct (n / 16 =? 0)%N; [reflexivity|].
  rewrite IH. rewrite (IH _ (String _ "")). rewrite append_assoc. reflexivity.
Qed.

Lemma hex_digits_value (fuel : nat) (n : N) :
  (n < 16 ^ N.of_nat (S fuel))%N -> hex_value 0 (hex_digits fuel n "") = n.
Proof.
  revert n; induction fuel as [|fuel IH]; intros n Hn.
  - simpl. change (16 ^ N.of_nat 1)%N with 16%N in Hn.
    rewrite hex_digit_value_digit by (apply N.mod_lt; lia).
    rewrite N.mod_small by assumption. lia.
  - cbn [hex_digits]. destruct (N.eqb_spec (n / 16) 0) as [Hz|Hz].
    + simpl. rewrite hex_digit_value_digit by (apply N.mod_lt; lia).
      pose proof (N.div_mod n 16). lia.
    + rewrite hex_digits_acc, hex_value_snoc.
      rewrite hex_digit_value_digit by (apply N.mod_lt; lia).
      rewrite IH.
      * pose proof (N.div_mod n 16). lia.
      * apply N.Div0.div_lt_upper_bound.
        replace (N.of_nat (S (S fuel))) with (N.succ (N.of_nat (S fuel))) in Hn by lia.
        now rewrite N.pow_succ_r' in Hn.
Qed.

(** [n.toString(16)] writes [n]: the digits it produces denote [n], so the
    number of steps allowed to [hex_digits] is enough for every [n]. *)
Lemma Number_toString16_value (n : N) :
  hex_value 0 (Number_toString16 (Int n)) = n.
Proof.
  simpl. apply hex_digits_value.
  destruct (N.eq_dec n 0%N) as [->|Hn]; [reflexivity|].
  assert (n < 2 ^ N.succ (N.log2 n))%N by (apply N.log2_spec; lia).
  replace (N.of_nat (S (N.to_nat (N.log2 n)))) with (N.succ (N.log2 n)) by lia.
  eapply N.lt_le_trans; [eassumption|].
  apply N.pow_le_mono_l. lia.
Qed.

End Numbers.

(** ** The pattern of [rgbToHex] *)

Section RgbPattern.

Lemma digit_not_space (c : ascii) : is_digit c = true -> is_space c = false.
Proof.
  destruct c as [[] [] [] [] [] [] [] []]; vm_compute; congruence.
Qed.

Lemma digit_run_stops_space (s rest : string) :
  digit_run s -> stops is_space (s +:+ rest).
Proof.
  intros [Hne Hd]. destruct s as [|c s]; [congruence|].
  simpl in *. apply andb_true_iff in Hd as [Hc _]. now apply digit_not_space.
Qed.

(** An attempt succeeds only on a text of the form [rgb(R, G, B)], and
    its captures are the three digit runs. *)
Lemma rgb_here_sound (s rs gs bs : string) :
  rgb_here s = Some (rs, gs, bs) -> rgb_prefix s rs gs bs.
Proof.
  unfold rgb_here.
  destruct (strip_prefix "rgb(" s) as [s1|] eqn:E0; [|discriminate].
  destruct (span is_digit s1) as [r s2] eqn:E1.
  destruct r as [|r0 r]; [discriminate|].
  destruct (strip_prefix "," s2) as [s3|] eqn:E2; [|discriminate].
  destruct (span is_space s3) as [w1 s4] eqn:E3.
  destruct (span is_digit s4) as [g s5] eqn:E4.
  destruct g as [|g0 g]; [discriminate|].
  destruct (strip_prefix "," s5) as [s6|] eqn:E5; [|discriminate].
  destruct (span is_space s6) as [w2 s7] eqn:E6.
  destruct (span is_digit s7) as [b s8] eqn:E7.
  destruct b as [|b0 b]; [discriminate|].
  destruct (strip_prefix ")" s8) as [post|] eqn:E8; [|discriminate].
  intros [= <- <- <-].
  apply strip_prefix_spec in E0, E2, E5, E8.
  apply span_sound in E1 as (F1 & D1 & _), E3 as (F3 & W1 & _),
     E4 as (F4 & D4 & _), E6 as (F6 & W2 & _), E7 as (F7 & D7 & _).
  exists w1, w2, post. repeat split; try discriminate; try assumption.
  unfold rgb_text. subst. rewrite !append_assoc. reflexivity.
Qed.

(** On a text of that form the attempt succeeds with these captures. *)
Lemma rgb_here_complete (s rs gs bs : string) :
  rgb_prefix s rs gs bs -> rgb_here s = Some (rs, gs, bs).
Proof.
  intros (w1 & w2 & post & -> & Hr & Hg & Hb & Hw1 & Hw2).
  unfold rgb_here, rgb_text. rewrite !append_assoc.
  assert (S0 : strip_prefix "rgb("
                 ("rgb(" +:+ rs +:+ "," +:+ w1 +:+ gs +:+ "," +:+ w2 +:+ bs +:+ ")" +:+ post)
               = Some (rs +:+ "," +:+ w1 +:+ gs +:+ "," +:+ w2 +:+ bs +:+ ")" +:+ post))
    by now apply strip_prefix_spec.
  rewrite S0.
  rewrite (span_complete is_digit rs) by (apply Hr || reflexivity).
  destruct rs as [|r0 rs]; [now destruct Hr|].
  assert (S1 : strip_prefix "," ("," +:+ w1 +:+ gs +:+ "," +:+ w2 +:+ bs +:+ ")" +:+ post)
               = Some (w1 +:+ gs +:+ "," +:+ w2 +:+ bs +:+ ")" +:+ post))
    by now apply strip_prefix_spec.
  rewrite S1.
  rewrite (span_complete is_space w1) by (assumption || now apply digit_run_stops_space).
  rewrite (span_complete is_digit gs) by (apply Hg || reflexivity).
  destruct gs as [|g0 gs]; [now destruct Hg|].
  assert (S2 : strip_prefix "," ("," +:+ w2 +:+ bs +:+ ")" +:+ post)
               = Some (w2 +:+ bs +:+ ")" +:+ post))
    by now apply strip_prefix_spec.
  rewrite S2.
  rewrite (span_complete is_space w2) by (assumption || now apply digit_run_stops_space).
  rewrite (span_complete is_digit bs) by (apply Hb || reflexivity).
  destruct bs as [|b0 bs]; [now destruct Hb|].
  assert (S3 : strip_prefix ")" (")" +:+ post) = Some post)
    by now apply strip_prefix_spec.
  now rewrite S3.
Qed.

(** The search fails exactly on the strings that contain no text of the
    form [rgb(R, G, B)]. *)
Lemma rgb_exec_None_iff (s : string) :
  exec_leftmost rgb_here s = None <-> ~ contains_rgb s.
Proof.
  rewrite exec_leftmost_None. split.
  - intros Hn (pre & rest & rs & gs & bs & Hs & Hp).
    apply rgb_here_complete in Hp. rewrite (Hn pre rest Hs) in Hp. discriminate.
  - intros Hn pre rest Hs.
    destruct (rgb_here rest) as [[[rs gs] bs]|] eqn:E; [|reflexivity].
    exfalso. apply Hn. exists pre, rest, rs, gs, bs. split; [assumption|].
    now apply rgb_here_sound.
Qed.

Lemma rgb_exec_Some (s rs gs bs : string) :
  exec_leftmost rgb_here s = Some (rs, gs, bs) ->
  exists pre rest, s = pre +:+ rest /\ rgb_prefix rest rs gs bs.
Proof.
  intros E. apply exec_leftmost_Some in E as (pre & rest & Hs & Hh).
  exists pre, rest. split; [assumption | now apply rgb_here_sound].
Qed.

End RgbPattern.

(** ** The pattern of [testDir] *)

Section PlaygroundPattern.

(** An attempt succeeds exactly on [playground/name/], with [name] as its
    capture. *)
Lemma playground_here_spec (s name : string) :
  playground_here s = Some name <-> playground_prefix s name.
Proof.
  unfold playground_here, playground_prefix. split.
  - destruct (strip_prefix "playground/" s) as [s1|] eqn:E0; [|discriminate].
    destruct (span is_name_char s1) as [n s2] eqn:E1.
    destruct n as [|c n]; [discriminate|].
    destruct (strip_prefix "/" s2) as [post|] eqn:E2; [|discriminate].
    intros [= <-]. exists post.
    apply strip_prefix_spec in E0, E2. apply span_sound in E1 as (F1 & A1 & _).
    subst. repeat split; [discriminate | assumption].
  - intros (post & -> & Hne & Hall).
    assert (S0 : strip_prefix "playground/" ("playground/" +:+ name +:+ "/" +:+ post)
                 = Some (name +:+ "/" +:+ post))
      by now apply strip_prefix_spec.
    rewrite S0. rewrite (span_complete is_name_char name) by (assumption || reflexivity).
    destruct name as [|c name]; [congruence|].
    assert (S1 : strip_prefix "/" ("/" +:+ post) = Some post)
      by now apply strip_prefix_spec.
    now rewrite S1.
Qed.

End PlaygroundPattern.

(** ** Colours *)

Section Colours.
Context `{Runtime}.

(** The step of the loop that fills [hexToNameMap]. *)
Let store (m : gmap string string) (color : string) : gmap string string :=
  match obj_get colors color with
  | Some hex => <[hex := color]> m
  | None => m
  end.

(** Every entry of the filled map comes from the table or was there
    before. *)
Lemma store_all_Some (keys : list string) (m0 : gmap string string) (hex name : string) :
  foldl store m0 keys !! hex = Some name ->
  (In name keys /\ obj_get colors name = Some hex) \/ m0 !! hex = Some name.
Proof.
  revert m0; induction keys as [|k keys IH]; intros m0; cbn [foldl]; [now right|].
  intros Hl. destruct (IH _ Hl) as [[Hin Hg]|Hm]; [left; split; [now right | assumption]|].
  unfold store in Hm. destruct (obj_get colors k) as [hex'|] eqn:Ek; [|now right].
  destruct (decide (hex' = hex)) as [->|Hne].
  - rewrite lookup_insert_eq in Hm. injection Hm as <-. left; split; [now left | assumption].
  - rewrite lookup_insert_ne in Hm by assumption. now right.
Qed.

(** A hex value that no name of the table has stays as it was. *)
Lemma store_all_None (keys : list string) (m0 : gmap string string) (hex : string) :
  (forall k, In k keys -> obj_get colors k <> Some hex) ->
  foldl store m0 keys !! hex = m0 !! hex.
Proof.
  revert m0; induction keys as [|k keys IH]; intros m0 Hk; cbn [foldl]; [reflexivity|].
  rewrite IH by (intros; apply Hk; now right).
  unfold store. destruct (obj_get colors k) as [hex'|] eqn:Ek; [|reflexivity].
  apply lookup_insert_ne. intros ->. now apply (Hk k); [left|].
Qed.

(** A hex value that exactly one name of the table has maps to that
    name. *)
Lemma store_all_only (keys : list string) (m0 : gmap string string) (hex name : string) :
  (forall k, In k keys -> obj_get colors k = Some hex -> k = name) ->
  (exists k, In k keys /\ obj_get colors k = Some hex) \/ m0 !! hex = Some name ->
  foldl store m0 keys !! hex = Some name.
Proof.
  revert m0; induction keys as [|k keys IH]; intros m0 Hk Hex; cbn [foldl].
  - destruct Hex as [(k & [] & _)|Hm]; assumption.
  - apply IH; [intros k0 Hin0 Hg0; apply Hk; [now right | assumption]|].
    unfold store. destruct (obj_get colors k) as [hex'|] eqn:Ek.
    + destruct (decide (hex' = hex)) as [->|Hne].
      * right. rewrite lookup_insert_eq. f_equal. apply Hk; [now left | assumption].
      * destruct Hex as [(k' & [<-|Hin] & Hg)|Hm].
        -- congruence.
        -- left. eauto.
        -- right. now rewrite lookup_insert_ne.
    + destruct Hex as [(k' & [<-|Hin] & Hg)|Hm]; [congruence | left; eauto | now right].
Qed.

(** A hex value once stored stays stored. *)
Lemma store_all_is_Some (keys : list string) (m0 : gmap string string) (hex : string) :
  is_Some (m0 !! hex) -> is_Some (foldl store m0 keys !! hex).
Proof.
  revert m0; induction keys as [|k keys IH]; intros m0 Hm; cbn [foldl]; [assumption|].
  apply IH. unfold store. destruct (obj_get colors k) as [hex'|]; [|assumption].
  destruct (decide (hex' = hex)) as [->|Hne].
  - rewrite lookup_insert_eq. eauto.
  - now rewrite lookup_insert_ne.
Qed.

Lemma obj_get_In {A} (o : list (string * A)) (k : string) (v : A) :
  obj_get o k = Some v -> In k (Object_keys o).
Proof.
  induction o as [|[k' v'] o IH]; simpl; [discriminate|].
  destruct (String.eqb_spec k' k) as [->|Hne]; [now left | right; auto].
Qed.

(** A name found in [hexToNameMap] is a name of the table, with that hex
    value. *)
Lemma hexToNameMap_Some (hex name : string) :
  hexToNameMap !! hex = Some name ->
  In name (Object_keys colors) /\ obj_get colors name = Some hex.
Proof.
  intros Hl. apply store_all_Some in Hl as [Hl|Hl]; [assumption|].
  rewrite lookup_empty in Hl. discriminate.
Qed.

(** A hex value is absent from [hexToNameMap] exactly when no name of the
    table has it. *)
Lemma hexToNameMap_None (hex : string) :
  hexToNameMap !! hex = None <->
  forall name, In name (Object_keys colors) -> obj_get colors name <> Some hex.
Proof.
  split.
  - intros Hn name Hin Hg.
    assert (is_Some (hexToNameMap !! hex)) as [n Hs]; [|congruence].
    unfold hexToNameMap. fold store.
    apply in_split in Hin as (l1 & l2 & ->).
    rewrite foldl_app. cbn [foldl]. apply store_all_is_Some.
    unfold store at 1. rewrite Hg, lookup_insert_eq. eauto.
  - intros Hk. unfold hexToNameMap. fold store.
    rewrite store_all_None by assumption. apply lookup_empty.
Qed.

(** The result of [rgbToHex] starts with [#], so that reading
    [hexToNameMap] at it finds a stored colour or nothing. *)
Lemma rgbToHex_hash (rgb : string) : exists t, rgbToHex rgb = "#" +:+ t.
Proof.
  unfold rgbToHex. destruct (exec_leftmost rgb_here rgb) as [[[rs gs] bs]|]; eauto.
Qed.

(** On a capture of [\d+] whose value is below 2^53, [parseInt] is that
    value. *)
Lemma parseInt10_digit_run (s : string) :
  digit_run s -> (decimal_value 0 s < 2 ^ 53)%N ->
  parseInt10 s = Int (decimal_value 0 s).
Proof.
  intros [Hne Hd] Hlt. unfold parseInt10.
  rewrite <- (append_nil_r s) at 1.
  rewrite (span_complete is_digit s "") by (assumption || exact I).
  destruct s as [|c s]; [congruence|].
  apply N.ltb_lt in Hlt. now rewrite Hlt.
Qed.

(** Without a match the fallback is returned. *)
Lemma rgbToHex_fallback (rgb : string) :
  ~ contains_rgb rgb -> rgbToHex rgb = "#000000".
Proof.
  intros Hn. apply rgb_exec_None_iff in Hn. unfold rgbToHex. now rewrite Hn.
Qed.

Lemma below_256 (n : N) : (n < 256)%N -> In n (map N.of_nat (seq 0 256)).
Proof.
  intros Hn. apply in_map_iff. exists (N.to_nat n). split; [lia|]. apply in_seq. lia.
Qed.

Lemma componentToHex_below_256 (n : N) :
  (n < 256)%N -> componentToHex (Int n) = hex_byte n.
Proof.
  intros Hn. apply below_256 in Hn.
  assert (Hall : List.Forall (fun n => componentToHex (Int n) = hex_byte n)
                   (map N.of_nat (seq 0 256))).
  { vm_compute. repeat (constructor; [reflexivity|]). constructor. }
  rewrite List.Forall_forall in Hall. now apply Hall.
Qed.

Lemma rgb_prefix_exec (s rs gs bs : string) :
  rgb_prefix s rs gs bs -> exec_leftmost rgb_here s = Some (rs, gs, bs).
Proof. intros Hp. apply exec_leftmost_here. now apply rgb_here_complete. Qed.

(** On a text that starts with [rgb(R, G, B)], the three numbers below
    256, the hex form is [#] and the two digits of each number. *)
Lemma rgbToHex_bytes (s rs gs bs : string) :
  rgb_prefix s rs gs bs ->
  (decimal_value 0 rs < 256)%N ->
  (decimal_value 0 gs < 256)%N ->
  (decimal_value 0 bs < 256)%N ->
  rgbToHex s = "#" +:+ hex_byte (decimal_value 0 rs)
                   +:+ hex_byte (decimal_value 0 gs)
                   +:+ hex_byte (decimal_value 0 bs).
Proof.
  intros Hp Hr Hg Hb. unfold rgbToHex. rewrite (rgb_prefix_exec _ _ _ _ Hp).
  destruct Hp as (w1 & w2 & post & _ & Dr & Dg & Db & _).
  rewrite !parseInt10_digit_run by (assumption || lia).
  now rewrite !componentToHex_below_256 by assumption.
Qed.

(** The last name of the table with a given hex value is the one stored
    under it. *)
Lemma hexToNameMap_last (before : list string) (name : string)
    (rest : list string) (hex : string) :
  Object_keys colors = (before ++ name :: rest)%list ->
  obj_get colors name = Some hex ->
  (forall k, In k rest -> obj_get colors k <> Some hex) ->
  hexToNameMap !! hex = Some name.
Proof.
  intros Hk Hg Hrest. unfold hexToNameMap. rewrite Hk, foldl_app. cbn [foldl].
  rewrite store_all_None by assumption.
  rewrite Hg. apply lookup_insert_eq.
Qed.

Lemma getColor_run (el : string + ElementHandle) (h : ElementHandle) (rgb : string) (w : World) :
  resolves_to el h -> computed_color h = Normal rgb ->
  getColor el w = (Normal (default rgb (hexToNameMap !! rgbToHex rgb)), w).
Proof.
  intros Hel Hc. unfold getColor, bind, toEl, lift, ret.
  destruct el as [selector|handle]; simpl in Hel.
  - rewrite Hel, Hc. reflexivity.
  - subst handle. rewrite Hc. reflexivity.
Qed.

End Colours.

(** ** Worlds and events *)

Section Worlds.

Lemma after_nil (w : World) : after w [] = w.
Proof. destruct w as [f t]. unfold after; simpl. now rewrite app_nil_r. Qed.

Lemma after_after (w : World) (evs1 evs2 : list Event) :
  after (after w evs1) evs2 = after w (evs1 ++ evs2).
Proof. unfold after; simpl. now rewrite app_assoc. Qed.

Lemma emit_run (e : Event) (w : World) : emit e w = (Normal tt, after w [e]).
Proof. reflexivity. Qed.

Lemma count_polls_missed (n : nat) (evs : list Event) :
  count_polls (missed_attempts n ++ evs) = n + count_polls evs.
Proof.
  unfold count_polls. induction n as [|n IH]; simpl in *; [reflexivity | now rewrite IH].
Qed.

Lemma count_sleeps_missed (n : nat) (evs : list Event) :
  count_sleeps (missed_attempts n ++ evs) = n + count_sleeps evs.
Proof.
  unfold count_sleeps. induction n as [|n IH]; simpl in *; [reflexivity | now rewrite IH].
Qed.

End Worlds.

(** ** Polling *)

Section Polling.
Context `{Runtime}.

Lemma maxTries_cases : maxTries = 50 \/ maxTries = 100.
Proof. unfold maxTries. destruct (truthy _); auto. Qed.

Lemma expect_toMatch_run (actual expected : string) (w : World) :
  expect_toMatch actual expected w =
  (if includes actual expected then Normal tt
   else Throw (AssertionError actual expected),
   after w [EvExpectToMatch actual expected]).
Proof.
  unfold expect_toMatch, bind. rewrite emit_run.
  destruct (includes actual expected); reflexivity.
Qed.

(** One iteration of the loop on a value in which [expected] does not
    occur, before the last attempt: poll, sleep, go on. *)
Lemma loop_miss (poll : nat -> completion (option string)) (expected : string)
    (remaining tries : nat) (v : option string) (w : World) :
  poll tries = Normal v ->
  includes (default "" v) expected = false ->
  tries <> maxTries - 1 ->
  untilUpdated_loop poll expected (S remaining) tries w =
  untilUpdated_loop poll expected remaining (S tries) (after w [EvPoll; EvSleep 50]).
Proof.
  intros Hp Hi Ht. cbn [untilUpdated_loop]. unfold bind at 1. rewrite emit_run.
  unfold bind at 1, lift at 1. rewrite Hp, indexOf_test, Hi.
  apply Nat.eqb_neq in Ht. rewrite Ht. cbn [orb].
  unfold bind, timeout. rewrite emit_run, after_after. reflexivity.
Qed.

(** The iteration that ends the loop: the value matches or the attempt is
    the last one. *)
Lemma loop_stop (poll : nat -> completion (option string)) (expected : string)
    (remaining tries : nat) (v : option string) (w : World) :
  poll tries = Normal v ->
  includes (default "" v) expected = true \/ tries = maxTries - 1 ->
  untilUpdated_loop poll expected (S remaining) tries w =
  (if includes (default "" v) expected then Normal tt
   else Throw (AssertionError (default "" v) expected),
   after w [EvPoll; EvExpectToMatch (default "" v) expected]).
Proof.
  intros Hp Hc. cbn [untilUpdated_loop]. unfold bind at 1. rewrite emit_run.
  unfold bind at 1, lift at 1. rewrite Hp, indexOf_test.
  assert (includes (default "" v) expected || (tries =? maxTries - 1)%nat = true) as ->.
  { destruct Hc as [-> | ->]; [reflexivity|]. rewrite Nat.eqb_refl. apply orb_true_r. }
  rewrite expect_toMatch_run, after_after. reflexivity.
Qed.

(** An exception of the getter leaves the loop at once. *)
Lemma loop_getter_throws (poll : nat -> completion (option string)) (expected : string)
    (remaining tries : nat) (e : Error) (w : World) :
  poll tries = Throw e ->
  untilUpdated_loop poll expected (S remaining) tries w = (Throw e, after w [EvPoll]).
Proof.
  intros Hp. cbn [untilUpdated_loop]. unfold bind at 1. rewrite emit_run.
  unfold bind at 1, lift at 1. now rewrite Hp.
Qed.

Lemma never_matching_at (poll : nat -> completion (option string)) (expected : string) (k : nat) :
  never_matching poll expected ->
  exists v, poll k = Normal v /\ includes (default "" v) expected = false.
Proof.
  intros Hn. destruct (Hn k) as (v & Hp & Ho). exists v. split; [assumption|].
  apply not_true_is_false. now rewrite includes_spec.
Qed.

(** With a getter that never matches, the loop entered with [remaining]
    iterations to go misses [remaining - 1] times and fails the assertion
    on the last attempt. *)
Lemma loop_never_matching (poll : nat -> completion (option string)) (expected : string)
    (remaining tries : nat) (w : World) :
  never_matching poll expected ->
  tries + S remaining = maxTries ->
  exists actual,
    untilUpdated_loop poll expected (S remaining) tries w =
    (Throw (AssertionError actual expected),
     after w (missed_attempts remaining ++ [EvPoll; EvExpectToMatch actual expected])).
Proof.
  intros Hn. revert tries w. induction remaining as [|r IH]; intros tries w Ht.
  - destruct (never_matching_at poll expected tries Hn) as (v & Hp & Hi).
    exists (default "" v). rewrite (loop_stop _ _ _ _ v) by (auto; right; lia).
    now rewrite Hi.
  - destruct (never_matching_at poll expected tries Hn) as (v & Hp & Hi).
    rewrite (loop_miss _ _ _ _ v) by (auto; lia).
    destruct (IH (S tries) (after w [EvPoll; EvSleep 50])) as (actual & ->); [lia|].
    exists actual. now rewrite after_after.
Qed.

(** An exception of the getter is not retried: after [k] missed attempts
    the call ends with that exception. *)
Lemma loop_getter_throws_after (poll : nat -> completion (option string))
    (expected : string) (k remaining tries : nat) (e : Error) (w : World) :
  (forall j, j < k ->
     exists v, poll (tries + j) = Normal v /\ includes (default "" v) expected = false) ->
  poll (tries + k) = Throw e ->
  tries + k < maxTries ->
  k < remaining ->
  untilUpdated_loop poll expected remaining tries w
  = (Throw e, after w (missed_attempts k ++ [EvPoll])).
Proof.
  revert remaining tries w. induction k as [|k IH]; intros remaining tries w Hmiss Hthrow Hlt Hrem.
  - destruct remaining as [|r]; [lia|]. rewrite Nat.add_0_r in Hthrow.
    now apply loop_getter_throws.
  - destruct remaining as [|r]; [lia|].
    destruct (Hmiss 0) as (v & Hp & Hi); [lia|]. rewrite Nat.add_0_r in Hp.
    rewrite (loop_miss _ _ _ _ v) by (auto; lia).
    rewrite (IH r (S tries)).
    + now rewrite after_after.
    + intros j Hj. destruct (Hmiss (S j)) as (v' & Hp' & Hi'); [lia|].
      exists v'. split; [|assumption]. now replace (S tries + j) with (tries + S j) by lia.
    + now replace (S tries + k) with (tries + S k) by lia.
    + lia.
    + lia.
Qed.

End Polling.

(** ** Files *)

Section Files.
Context `{Runtime}.

Lemma readdirSync_run (path : string) (names : list string) (w : World) :
  fs w !! path = Some (Dir names) ->
  readdirSync path w = (Normal names, after w [EvReaddir path]).
Proof.
  intros Hd. unfold readdirSync, bind. rewrite emit_run. simpl. now rewrite Hd.
Qed.

Lemma readFileSync_run (path content : string) (w : World) :
  fs w !! path = Some (File content) ->
  readFileSync path w = (Normal content, after w [EvRead path]).
Proof.
  intros Hf. unfold readFileSync, bind. rewrite emit_run. simpl. now rewrite Hf.
Qed.

Lemma readFileSync_absent (path : string) (w : World) :
  fs w !! path = None ->
  readFileSync path w = (Throw (ENOENT path), after w [EvRead path]).
Proof.
  intros Hf. unfold readFileSync, bind. rewrite emit_run. simpl. now rewrite Hf.
Qed.

Lemma Array_find_first {A} (cb : A -> completion bool) (before : list A) (x : A) (rest : list A) :
  (forall y, In y before -> cb y = Normal false) ->
  cb x = Normal true ->
  Array_find cb (before ++ x :: rest) = Normal (Some x).
Proof.
  intros Hb Hx. induction before as [|y before IH]; simpl.
  - now rewrite Hx.
  - rewrite (Hb y) by now left. apply IH. intros; apply Hb; now right.
Qed.

Lemma Array_find_none {A} (cb : A -> completion bool) (l : list A) :
  (forall y, In y l -> cb y = Normal false) ->
  Array_find cb l = Normal None.
Proof.
  intros Hl. induction l as [|y l IH]; simpl; [reflexivity|].
  rewrite (Hl y) by now left. apply IH. intros; apply Hl; now right.
Qed.

Lemma String_match_run (m : string + RegExp) (re : RegExp) (file : string) :
  regexp_of m re -> String_match file m = Normal (re_test re file).
Proof.
  destruct m as [pattern|re']; simpl; [intros -> | intros ->]; reflexivity.
Qed.

(** A string without syntax characters, used as a pattern, matches the
    names in which it occurs. *)
Lemma RegExpCreate_plain (p : string) (re : RegExp) (file : string) :
  plain_pattern p = true -> RegExpCreate p = Normal re ->
  re_test re file = true <-> occurs_in p file.
Proof.
  unfold RegExpCreate. intros ->. intros [= <-]. simpl. apply includes_spec.
Qed.

Lemma findAssetFile_first (m : string + RegExp) (re : RegExp) (base : option string)
    (dir : string) (before : list string) (file : string) (rest : list string)
    (content : string) (w : World) :
  let assetsDir := path_join [dir; "dist"; default "" base; "assets"] in
  testDir = Normal dir ->
  fs w !! assetsDir = Some (Dir (before ++ file :: rest)) ->
  regexp_of m re ->
  (forall f, In f before -> re_test re f = false) ->
  re_test re file = true ->
  file <> "" ->
  fs w !! path_resolve [assetsDir; file] = Some (File content) ->
  findAssetFile m base w =
  (Normal content, after w [EvReaddir assetsDir; EvRead (path_resolve [assetsDir; file])]).
Proof.
  intros assetsDir Hd Hfs Hre Hb Hf Hne Hc.
  unfold findAssetFile. unfold bind at 1, lift at 1. rewrite Hd.
  unfold bind at 1. fold assetsDir. rewrite (readdirSync_run _ _ _ Hfs).
  unfold bind at 1, lift at 1.
  rewrite Array_find_first.
  - destruct file as [|c file]; [congruence|].
    rewrite (readFileSync_run _ content) by assumption.
    now rewrite after_after.
  - intros y Hy. rewrite (String_match_run _ re) by assumption. now rewrite Hb.
  - rewrite (String_match_run _ re) by assumption. now rewrite Hf.
Qed.

Lemma findAssetFile_none (m : string + RegExp) (re : RegExp) (base : option string)
    (dir : string) (names : list string) (w : World) :
  let assetsDir := path_join [dir; "dist"; default "" base; "assets"] in
  testDir = Normal dir ->
  fs w !! assetsDir = Some (Dir names) ->
  regexp_of m re ->
  (forall f, In f names -> re_test re f = false) ->
  findAssetFile m base w = (Normal "", after w [EvReaddir assetsDir]).
Proof.
  intros assetsDir Hd Hfs Hre Hn.
  unfold findAssetFile. unfold bind at 1, lift at 1. rewrite Hd.
  unfold bind at 1. fold assetsDir. rewrite (readdirSync_run _ _ _ Hfs).
  unfold bind at 1, lift at 1.
  rewrite Array_find_none; [reflexivity|].
  intros y Hy. rewrite (String_match_run _ re) by assumption. now rewrite Hn.
Qed.

End Files.

(** ** Facts about the concrete runtime *)

Section SampleFacts.

Lemma always_never_matching : never_matching (Sample.always "a") "b".
Proof.
  intros k. exists (Some "a"). split; [reflexivity|].
  rewrite <- includes_spec. vm_compute. discriminate.
Qed.

Lemma maxTries_serve : @maxTries Sample.serve = 50.
Proof. reflexivity. Qed.

Lemma maxTries_ci : @maxTries Sample.ci = 100.
Proof. reflexivity. Qed.

Lemma testDir_sample : @testDir Sample.serve = Normal Sample.test_dir.
Proof. reflexivity. Qed.

Lemma rgba_not_rgb : ~ contains_rgb "rgba(0, 0, 0, 0)".
Proof. apply rgb_exec_None_iff. reflexivity. Qed.

Lemma sample_black_only (name : string) :
  In name (Object_keys Sample.css_colors) ->
  obj_get Sample.css_colors name = Some "#000000" -> name = "black".
Proof.
  simpl. intros Hin.
  repeat (destruct Hin as [<-|Hin]; [vm_compute; congruence|]).
  destruct Hin.
Qed.

End SampleFacts.

(** ** [untilUpdated] *)

Section UntilUpdated.
Context `{Runtime}.

(** C1, with the guard made explicit.  Unless the build-mode guard applies
    (the build flag set and [runInBuild] left false), for every getter that
    never returns a string containing the expected substring,
    [untilUpdated] polls exactly [maxTries] times (100 when the CI variable
    is set to a non-empty value, 50 otherwise), sleeps 50ms after each
    attempt but the last, and on the last attempt runs the substring
    assertion, which fails: the call ends with the assertion's error. *)
Theorem untilUpdated_never_matching (poll : nat -> completion (option string))
    (expected : string) (runInBuild : option bool) (w : World) :
  isBuild && negb (default false runInBuild) = false ->
  never_matching poll expected ->
  exists actual evs,
    untilUpdated poll expected runInBuild w
    = (Throw (AssertionError actual expected), after w evs)
    /\ evs = (missed_attempts (maxTries - 1) ++ [EvPoll; EvExpectToMatch actual expected])%list
    /\ count_polls evs = maxTries
    /\ count_sleeps evs = maxTries - 1
    /\ maxTries = (if truthy (process_env !! "CI") then 100 else 50).
Proof.
  intros Hguard Hn. unfold untilUpdated. rewrite Hguard.
  assert (maxTries = S (maxTries - 1)) as Hm
    by (destruct maxTries_cases as [-> | ->]; reflexivity).
  destruct (loop_never_matching poll expected (maxTries - 1) 0 w Hn) as (actual & Hrun);
    [lia|].
  exists actual, (missed_attempts (maxTries - 1) ++ [EvPoll; EvExpectToMatch actual expected])%list.
  rewrite Hm at 1. rewrite Hrun.
  rewrite count_polls_missed, count_sleeps_missed.
  repeat split; try reflexivity. unfold count_polls; simpl. lia.
  unfold count_sleeps; simpl. lia.
Qed.

(** C2.  With the build flag set and [runInBuild] left false,
    [untilUpdated] returns at once for every getter and expected string:
    the world is as before, so no poll, no sleep and no assertion took
    place. *)
Theorem untilUpdated_skipped_in_build (poll : nat -> completion (option string))
    (expected : string) (runInBuild : option bool) (w : World) :
  isBuild = true -> default false runInBuild = false ->
  untilUpdated poll expected runInBuild w = (Normal tt, w).
Proof.
  intros Hb Hr. unfold untilUpdated. now rewrite Hb, Hr.
Qed.

(** C3.  If the getter's first result contains the expected substring,
    [untilUpdated] returns normally without any sleep and with at most one
    call of the getter; when the build-mode guard does not apply it makes
    exactly that one call, followed by the assertion, which passes. *)
Theorem untilUpdated_first_match (poll : nat -> completion (option string))
    (expected : string) (runInBuild : option bool) (v : option string) (w : World) :
  poll 0 = Normal v ->
  occurs_in expected (default "" v) ->
  exists evs,
    untilUpdated poll expected runInBuild w = (Normal tt, after w evs)
    /\ count_sleeps evs = 0
    /\ count_polls evs <= 1
    /\ (isBuild && negb (default false runInBuild) = false ->
        evs = [EvPoll; EvExpectToMatch (default "" v) expected]).
Proof.
  intros Hp Ho. apply includes_spec in Ho. unfold untilUpdated.
  destruct (isBuild && negb (default false runInBuild)).
  - exists []. rewrite after_nil. repeat split; auto. discriminate.
  - exists [EvPoll; EvExpectToMatch (default "" v) expected].
    assert (maxTries = S (maxTries - 1)) as ->
      by (destruct maxTries_cases as [-> | ->]; reflexivity).
    rewrite (loop_stop _ _ _ _ v) by auto. rewrite Ho.
    repeat split; auto.
Qed.

End UntilUpdated.

(** C1 without the guard's precondition fails in build mode: the getter
    never matches, yet the guarded call polls zero times instead of
    [maxTries] and returns normally instead of failing an assertion. *)
Lemma untilUpdated_never_matching_in_build_mode :
  never_matching (Sample.always "a") "b"
  /\ @untilUpdated Sample.build (Sample.always "a") "b" None Sample.world
     = (Normal tt, Sample.world)
  /\ ~ (exists actual evs,
          @untilUpdated Sample.build (Sample.always "a") "b" None Sample.world
          = (Throw (AssertionError actual "b"), after Sample.world evs)
          /\ count_polls evs = @maxTries Sample.build).
Proof.
  split; [exact always_never_matching|]. split; [reflexivity|].
  intros (actual & evs & Hrun & _). discriminate Hrun.
Qed.

(** In serve mode a getter that always yields ['a'] is polled 50 times for
    ['b'] before the assertion fails. *)
Lemma untilUpdated_never_matching_witness :
  exists actual evs,
    @untilUpdated Sample.serve (Sample.always "a") "b" None Sample.world
    = (Throw (AssertionError actual "b"), after Sample.world evs)
    /\ evs = (missed_attempts (@maxTries Sample.serve - 1)
               ++ [EvPoll; EvExpectToMatch actual "b"])%list
    /\ count_polls evs = @maxTries Sample.serve
    /\ count_sleeps evs = @maxTries Sample.serve - 1
    /\ @maxTries Sample.serve = 50.
Proof.
  apply (@untilUpdated_never_matching Sample.serve).
  - reflexivity.
  - exact always_never_matching.
Defined.

(** In build mode the same call does nothing. *)
Lemma untilUpdated_skipped_in_build_witness :
  @untilUpdated Sample.build (Sample.always "a") "b" None Sample.world
  = (Normal tt, Sample.world).
Proof.
  apply (@untilUpdated_skipped_in_build Sample.build); reflexivity.
Defined.

(** ['updated!'] contains ['updated']: one poll, no sleep. *)
Lemma untilUpdated_first_match_witness :
  exists evs,
    @untilUpdated Sample.serve (Sample.always "updated!") "updated" None Sample.world
    = (Normal tt, after Sample.world evs)
    /\ count_sleeps evs = 0
    /\ count_polls evs <= 1
    /\ (@isBuild Sample.serve && negb (default false None) = false ->
        evs = [EvPoll; EvExpectToMatch "updated!" "updated"]).
Proof.
  apply (@untilUpdated_first_match Sample.serve _ _ _ (Some "updated!")).
  - reflexivity.
  - exists "", "!". reflexivity.
Defined.

(** ** [rgbToHex] and [getColor] *)

Section ColourClaims.
Context `{Runtime}.

(** C4.  [rgbToHex('rgb(0, 0, 0)')] is ['#000000'],
    [rgbToHex('rgb(255, 255, 255)')] is ['#ffffff'], and every string
    that contains no text of the form [rgb(R, G, B)] (digits, white space
    optional after the commas) yields the fallback ['#000000']; the
    result is a string in each case, no error is raised. *)
Theorem rgbToHex_black_white_fallback :
  rgbToHex "rgb(0, 0, 0)" = "#000000"
  /\ rgbToHex "rgb(255, 255, 255)" = "#ffffff"
  /\ forall rgb : string, ~ contains_rgb rgb -> rgbToHex rgb = "#000000".
Proof.
  split; [reflexivity|]. split; [reflexivity|].
  exact rgbToHex_fallback.
Qed.

(** C5.  The hex form of a computed colour is [rgbToHex] of it: [#] and
    the two hexadecimal digits of each number for a text that starts with
    [rgb(R, G, B)], the numbers below 256, and [#000000] for a text without
    such a form.  When some name of the colour table has this hex value,
    [getColor] returns a name of the table with that value, not the hex
    string and not the computed colour: the last such name in the order of
    the table.  When no name of the table has it, [getColor] returns the
    computed colour unchanged. *)
Theorem getColor_name_or_raw (el : string + ElementHandle) (h : ElementHandle)
    (rgb : string) (w : World) :
  resolves_to el h ->
  computed_color h = Normal rgb ->
  ((exists name0, In name0 (Object_keys colors)
                  /\ obj_get colors name0 = Some (rgbToHex rgb)) ->
   exists name,
     getColor el w = (Normal name, w)
     /\ In name (Object_keys colors)
     /\ obj_get colors name = Some (rgbToHex rgb))
  /\ (forall before name rest,
        Object_keys colors = (before ++ name :: rest)%list ->
        obj_get colors name = Some (rgbToHex rgb) ->
        (forall k, In k rest -> obj_get colors k <> Some (rgbToHex rgb)) ->
        getColor el w = (Normal name, w))
  /\ ((forall name, In name (Object_keys colors) ->
                    obj_get colors name <> Some (rgbToHex rgb)) ->
      getColor el w = (Normal rgb, w))
  /\ (forall rs gs bs,
        rgb_prefix rgb rs gs bs ->
        (decimal_value 0 rs < 256)%N ->
        (decimal_value 0 gs < 256)%N ->
        (decimal_value 0 bs < 256)%N ->
        rgbToHex rgb = "#" +:+ hex_byte (decimal_value 0 rs)
                           +:+ hex_byte (decimal_value 0 gs)
                           +:+ hex_byte (decimal_value 0 bs))
  /\ (~ contains_rgb rgb -> rgbToHex rgb = "#000000").
Proof.
  intros Hel Hc. rewrite (getColor_run el h rgb w Hel Hc).
  split; [|split; [|split; [|split]]].
  - intros (name0 & Hin & Hg).
    destruct (hexToNameMap !! rgbToHex rgb) as [name|] eqn:Hl.
    + exists name. split; [reflexivity|]. now apply hexToNameMap_Some.
    + exfalso. rewrite hexToNameMap_None in Hl. exact (Hl name0 Hin Hg).
  - intros before name rest Hk Hg Hrest.
    now rewrite (hexToNameMap_last before name rest _ Hk Hg Hrest).
  - intros Hnone. apply hexToNameMap_None in Hnone. now rewrite Hnone.
  - apply rgbToHex_bytes.
  - apply rgbToHex_fallback.
Qed.

(** C6.  With a colour table in which [black] is the one name of
    [#000000] (as in [css-color-names]), every computed colour that
    contains no text of the form [rgb(R, G, B)] makes [getColor] return
    ['black'] rather than the computed value. *)
Theorem getColor_unparsed_is_black (el : string + ElementHandle) (h : ElementHandle)
    (rgb : string) (w : World) :
  obj_get colors "black" = Some "#000000" ->
  (forall name : string,
      In name (Object_keys colors) ->
      obj_get colors name = Some "#000000" -> name = "black") ->
  resolves_to el h ->
  computed_color h = Normal rgb ->
  ~ contains_rgb rgb ->
  getColor el w = (Normal "black", w).
Proof.
  intros Hblack Honly Hel Hc Hn.
  rewrite (getColor_run el h rgb w Hel Hc).
  rewrite (rgbToHex_fallback rgb Hn).
  assert (hexToNameMap !! "#000000" = Some "black") as ->; [|reflexivity].
  unfold hexToNameMap. apply store_all_only; [assumption|].
  left. exists "black". split; [|assumption]. eapply obj_get_In; eassumption.
Qed.

End ColourClaims.

(** ['transparent'] has no [rgb(R, G, B)] text and yields the fallback. *)
Lemma rgbToHex_black_white_fallback_witness :
  ~ contains_rgb "transparent"
  /\ @rgbToHex Sample.serve "transparent" = "#000000".
Proof.
  assert (Hn : ~ contains_rgb "transparent")
    by (apply rgb_exec_None_iff; reflexivity).
  split; [exact Hn|].
  exact (proj2 (proj2 (@rgbToHex_black_white_fallback Sample.serve)) "transparent" Hn).
Defined.

(** In the sample table [red] is the last name of [#ff0000], and no name
    has the hex form of ['rgb(1, 2, 3)']: an element of the first colour is
    reported as ['red'], an element of the second by its computed colour. *)
Lemma getColor_name_or_raw_witness :
  @getColor Sample.serve (inr "rgb(255, 0, 0)") Sample.world = (Normal "red", Sample.world)
  /\ @getColor Sample.serve (inr "rgb(1, 2, 3)") Sample.world
     = (Normal "rgb(1, 2, 3)", Sample.world).
Proof.
  split.
  - apply (proj1 (proj2 (@getColor_name_or_raw Sample.serve (inr "rgb(255, 0, 0)")
                           "rgb(255, 0, 0)" "rgb(255, 0, 0)" Sample.world
                           eq_refl eq_refl))
             ["aqua"; "black"; "blue"; "cyan"] "red" ["white"]).
    + reflexivity.
    + reflexivity.
    + intros k [<-|[]]. discriminate.
  - apply (proj1 (proj2 (proj2 (@getColor_name_or_raw Sample.serve (inr "rgb(1, 2, 3)")
                                  "rgb(1, 2, 3)" "rgb(1, 2, 3)" Sample.world
                                  eq_refl eq_refl)))).
    intros name Hin. simpl in Hin.
    repeat (destruct Hin as [<-|Hin]; [discriminate|]). destruct Hin.
Defined.

(** An element whose computed colour is ['rgba(0, 0, 0, 0)'] is reported
    as ['black']. *)
Lemma getColor_unparsed_is_black_witness :
  @getColor Sample.serve (inr "rgba(0, 0, 0, 0)") Sample.world
  = (Normal "black", Sample.world).
Proof.
  apply (@getColor_unparsed_is_black Sample.serve (inr "rgba(0, 0, 0, 0)")
           "rgba(0, 0, 0, 0)" "rgba(0, 0, 0, 0)").
  - reflexivity.
  - exact sample_black_only.
  - reflexivity.
  - reflexivity.
  - exact rgba_not_rgb.
Defined.

(** ** [editFile], [listAssets] and [findAssetFile] *)

Section FileClaims.
Context `{Runtime}.

(** C7.  With the build flag set and [runInBuild] left false, [editFile]
    returns without reading or writing: for every file name and every
    replacer the world is as before, so every file has the contents it
    had. *)
Theorem editFile_skipped_in_build (filename : string)
    (replacer : string -> completion string) (runInBuild : option bool) (w : World) :
  isBuild = true -> default false runInBuild = false ->
  editFile filename replacer runInBuild w = (Normal tt, w).
Proof.
  intros Hb Hr. unfold editFile. now rewrite Hb, Hr.
Qed.

(** C8, with the matching made precise.  Against a populated assets
    directory, [listAssets] returns exactly the names [readdirSync] lists
    for it.  [findAssetFile] matches every name against a regular
    expression, the argument itself or, for a string argument, the
    expression compiled from it: it returns the contents of the first
    listed name the expression matches, and the empty string when it
    matches none.  A string argument without syntax characters matches
    every name in which it occurs, not only the name equal to it. *)
Theorem assets_listing_and_lookup (base : option string) (dir : string)
    (names : list string) (w : World) :
  let assetsDir := path_join [dir; "dist"; default "" base; "assets"] in
  testDir = Normal dir ->
  fs w !! assetsDir = Some (Dir names) ->
  listAssets base w = (Normal names, after w [EvReaddir assetsDir])
  /\ (forall (m : string + RegExp) (re : RegExp),
        regexp_of m re ->
        (forall (before : list string) (file : string) (rest : list string) (content : string),
            names = (before ++ file :: rest)%list ->
            (forall f, In f before -> re_test re f = false) ->
            re_test re file = true ->
            file <> "" ->
            fs w !! path_resolve [assetsDir; file] = Some (File content) ->
            findAssetFile m base w
            = (Normal content,
               after w [EvReaddir assetsDir; EvRead (path_resolve [assetsDir; file])]))
        /\ ((forall f, In f names -> re_test re f = false) ->
            findAssetFile m base w = (Normal "", after w [EvReaddir assetsDir])))
  /\ (forall (p : string) (re : RegExp),
        plain_pattern p = true ->
        regexp_of (inl p) re ->
        forall file, re_test re file = true <-> occurs_in p file).
Proof.
  intros assetsDir Hd Hfs. split; [|split].
  - unfold listAssets. unfold bind, lift. rewrite Hd.
    fold assetsDir. now apply readdirSync_run.
  - intros m re Hre. split.
    + intros before file rest content -> Hb Hf Hne Hc.
      now apply (findAssetFile_first m re base dir before file rest content w).
    + intros Hn. now apply (findAssetFile_none m re base dir names w).
  - intros p re Hp Hre file. now apply RegExpCreate_plain.
Qed.

End FileClaims.

(** In build mode [index.html] is not edited. *)
Lemma editFile_skipped_in_build_witness :
  @editFile Sample.build "index.html" (fun s => Normal (s +:+ "!")) None Sample.world
  = (Normal tt, Sample.world).
Proof.
  apply (@editFile_skipped_in_build Sample.build); reflexivity.
Defined.

(** C8 with exact-name matching fails for a string argument: no file of
    the directory is named [index], yet [findAssetFile('index')] returns
    the contents of [index.js] instead of the empty string. *)
Lemma findAssetFile_string_not_exact_name :
  fst (@listAssets Sample.serve None Sample.world) = Normal ["index.js"; "index.css"]
  /\ (forall f, In f ["index.js"; "index.css"] -> f <> "index")
  /\ fst (@findAssetFile Sample.serve (inl "index") None Sample.world)
     = Normal "console.log(1)"
  /\ fst (@findAssetFile Sample.serve (inl "index") None Sample.world) <> Normal "".
Proof.
  split; [reflexivity|]. split.
  - intros f [<-|[<-|[]]]; discriminate.
  - split; [reflexivity | discriminate].
Qed.

(** The built directory of the sample world: its listing, a pattern that
    matches [index.css], and one that matches nothing. *)
Lemma assets_listing_and_lookup_witness :
  @listAssets Sample.serve None Sample.world
  = (Normal ["index.js"; "index.css"], after Sample.world [EvReaddir Sample.assets_dir])
  /\ @findAssetFile Sample.serve (inl "css") None Sample.world
     = (Normal "h1{color:red}",
        after Sample.world [EvReaddir Sample.assets_dir;
                            EvRead "/repo/playground-temp/assets/dist/assets/index.css"])
  /\ @findAssetFile Sample.serve (inl "png") None Sample.world
     = (Normal "", after Sample.world [EvReaddir Sample.assets_dir])
  /\ ({| re_test := fun s => includes s "css" |}.(re_test) "index.css" = true
      <-> occurs_in "css" "index.css").
Proof.
  destruct (@assets_listing_and_lookup Sample.serve None Sample.test_dir
              ["index.js"; "index.css"] Sample.world eq_refl eq_refl)
    as (Hlist & Hfind & Hplain).
  split; [exact Hlist|].
  destruct (Hfind (inl "css") {| re_test := fun s => includes s "css" |} eq_refl)
    as (Hfirst & _).
  destruct (Hfind (inl "png") {| re_test := fun s => includes s "png" |} eq_refl)
    as (_ & Hnone).
  split; [|split].
  - apply (Hfirst ["index.js"] "index.css" [] "h1{color:red}"); try reflexivity.
    + intros f [<-|[]]. reflexivity.
    + discriminate.
  - apply Hnone. intros f [<-|[<-|[]]]; reflexivity.
  - apply (Hplain "css" _ eq_refl eq_refl).
Defined.

(** ** [ports] *)

Section Ports.

Lemma obj_get_elem {A} (o : list (string * A)) (k : string) (v : A) :
  obj_get o k = Some v -> In (k, v) o.
Proof.
  induction o as [|[k' v'] o IH]; simpl; [discriminate|].
  destruct (String.eqb_spec k' k) as [->|Hne].
  - intros [= ->]. now left.
  - intros Hg. right. auto.
Qed.

(** In a table whose values are pairwise distinct, a value belongs to one
    name only. *)
Lemma NoDup_values_inj {A} (o : list (string * A)) (k1 k2 : string) (v : A) :
  List.NoDup (map snd o) -> In (k1, v) o -> In (k2, v) o -> k1 = k2.
Proof.
  induction o as [|[k' v'] o IH]; simpl; [contradiction|].
  intros Hnd. inversion Hnd as [|? ? Hnotin Hnd']; subst.
  intros [E1|H1] [E2|H2].
  - congruence.
  - injection E1 as -> ->. exfalso. apply Hnotin.
    change v with (snd (k2, v)). now apply in_map.
  - injection E2 as -> ->. exfalso. apply Hnotin.
    change v with (snd (k1, v)). now apply in_map.
  - now apply IH.
Qed.

Lemma ports_values_NoDup : List.NoDup (map snd ports).
Proof.
  apply (NoDup_count_occ' Z.eq_dec). intros x Hin.
  simpl in Hin. repeat (destruct Hin as [<-|Hin]; [reflexivity|]). destruct Hin.
Qed.

(** C9.  The ports of the table are pairwise distinct: two different
    suite identifiers of the table never have the same port. *)
Theorem ports_unique (suite1 suite2 : string) (port1 port2 : Z) :
  suite1 <> suite2 ->
  obj_get ports suite1 = Some port1 ->
  obj_get ports suite2 = Some port2 ->
  port1 <> port2.
Proof.
  intros Hne H1 H2 ->.
  apply Hne. eapply (NoDup_values_inj ports); eauto using ports_values_NoDup, obj_get_elem.
Qed.

End Ports.

(** The suites [cli] and [lib]. *)
Lemma ports_unique_witness :
  obj_get ports "cli" = Some 9510%Z
  /\ obj_get ports "lib" = Some 9521%Z
  /\ (9510 <> 9521)%Z.
Proof.
  split; [reflexivity|]. split; [reflexivity|].
  apply (ports_unique "cli" "lib"); [discriminate | reflexivity | reflexivity].
Defined.

(** ** The test environment's [setup] *)

Section Setup.
Context `{Runtime}.
Import PlaywrightEnvironment.

Lemma in_world_run {A} (m : M A) (this : t) (w : World) :
  in_world m (this, w) = (fst (m w), (this, snd (m w))).
Proof. unfold in_world. now destruct (m w). Qed.

Lemma base_setup_run (w : World) :
  bind (emit EvSuperSetup) (fun _ => lift super_setup) w
  = (super_setup, after w [EvSuperSetup]).
Proof. reflexivity. Qed.

(** C10.  If the WebSocket endpoint file is absent or empty, [setup]
    throws, whatever the test file is; the object is as before and the
    only events are the base [setup] and, when that returned, the read of
    the endpoint file: no browser connection is attempted.  When the base
    [setup] returns, the error is the file system's for the absent file
    and ['wsEndpoint not found'] for the empty one. *)
Theorem setup_without_endpoint (this : t) (w : World) :
  let endpoint := path_join [DIR; "wsEndpoint"] in
  fs w !! endpoint = None \/ fs w !! endpoint = Some (File "") ->
  exists e evs,
    setup (this, w) = (Throw e, (this, after w evs))
    /\ (forall ev, In ev evs -> is_connect ev = false)
    /\ (super_setup = Normal tt ->
        evs = [EvSuperSetup; EvRead endpoint]
        /\ (fs w !! endpoint = None -> e = ENOENT endpoint)
        /\ (fs w !! endpoint = Some (File "") -> e = ErrorMsg "wsEndpoint not found")).
Proof.
  intros endpoint Hfile. unfold setup. fold endpoint.
  unfold bind at 1. rewrite in_world_run, base_setup_run. cbn [fst snd].
  destruct super_setup as [[]|e0] eqn:Hs.
  - cbn [fst snd]. unfold bind at 1. rewrite in_world_run.
    destruct Hfile as [Hf|Hf].
    + rewrite (readFileSync_absent endpoint) by exact Hf. cbn [fst snd].
      rewrite after_after. exists (ENOENT endpoint), [EvSuperSetup; EvRead endpoint].
      split; [reflexivity|]. split.
      * intros ev [<-|[<-|[]]]; reflexivity.
      * intros _. split; [reflexivity|]. split; [reflexivity|]. congruence.
    + rewrite (readFileSync_run endpoint "") by exact Hf. cbn [fst snd].
      rewrite after_after.
      exists (ErrorMsg "wsEndpoint not found"), [EvSuperSetup; EvRead endpoint].
      split; [reflexivity|]. split.
      * intros ev [<-|[<-|[]]]; reflexivity.
      * intros _. split; [reflexivity|]. split; [congruence | reflexivity].
  - cbn [fst snd]. exists e0, [EvSuperSetup].
    split; [reflexivity|]. split.
    + intros ev [<-|[]]; reflexivity.
    + discriminate.
Qed.

End Setup.

(** The sample world has no endpoint file. *)
Lemma setup_without_endpoint_witness :
  exists e evs,
    @PlaywrightEnvironment.setup Sample.serve
      (PlaywrightEnvironment.mk Sample.test_file None None false, Sample.world)
    = (Throw e, (PlaywrightEnvironment.mk Sample.test_file None None false,
                 after Sample.world evs))
    /\ (forall ev, In ev evs -> is_connect ev = false)
    /\ (@super_setup Sample.serve = Normal tt ->
        evs = [EvSuperSetup; EvRead "/tmp/jest_playwright_global_setup/wsEndpoint"]
        /\ (fs Sample.world !! "/tmp/jest_playwright_global_setup/wsEndpoint" = None ->
            e = ENOENT "/tmp/jest_playwright_global_setup/wsEndpoint")
        /\ (fs Sample.world !! "/tmp/jest_playwright_global_setup/wsEndpoint"
            = Some (File "") ->
            e = ErrorMsg "wsEndpoint not found")).
Proof.
  apply (@setup_without_endpoint Sample.serve). left. reflexivity.
Defined.

(** * Further properties of the helpers *)

(** ** [slash] and [testDir] *)

Section Paths.
Context `{Runtime}.

Lemma occurs_char_cons (c x : ascii) (s : string) :
  occurs_in (String c "") (String x s) <-> x = c \/ occurs_in (String c "") s.
Proof.
  split.
  - intros (pre & post & E). destruct pre as [|y pre]; simpl in E.
    + injection E as -> _. now left.
    + injection E as _ E. right. now exists pre, post.
  - intros [->|(pre & post & ->)].
    + now exists "", s.
    + now exists (String x pre), post.
Qed.

Lemma occurs_char_nil (c : ascii) : ~ occurs_in (String c "") "".
Proof. intros (pre & post & E). destruct pre; discriminate. Qed.

(** X1.  [slash] leaves no backslash, keeps the length, changes nothing in
    a path without backslashes, and applying it twice is applying it
    once. *)
Theorem slash_normal_form (p : string) :
  ~ occurs_in "\" (slash p)
  /\ String.length (slash p) = String.length p
  /\ slash (slash p) = slash p
  /\ (~ occurs_in "\" p -> slash p = p).
Proof.
  unfold slash. induction p as [|x p (IH1 & IH2 & IH3 & IH4)]; simpl.
  - repeat split; auto using occurs_char_nil.
  - destruct (Ascii.eqb_spec x "\") as [->|Hx].
    + repeat split.
      * rewrite occurs_char_cons. intros [E|E]; [discriminate | contradiction].
      * now rewrite IH2.
      * simpl. now rewrite IH3.
      * intros Hn. exfalso. apply Hn. rewrite occurs_char_cons. now left.
    + repeat split.
      * rewrite occurs_char_cons. intros [E|E]; [congruence | contradiction].
      * now rewrite IH2.
      * simpl. apply Ascii.eqb_neq in Hx. now rewrite Hx, IH3.
      * intros Hn. rewrite IH4; [reflexivity|].
        intros Ho. apply Hn. rewrite occurs_char_cons. now right.
Qed.

(** A match that starts after [pre], with no match starting inside
    [pre], is the one the search returns. *)
Lemma exec_leftmost_skip {A} (here : string -> option A) (pre rest : string) :
  no_match_before here pre rest ->
  exec_leftmost here (pre +:+ rest) = exec_leftmost here rest.
Proof.
  induction pre as [|c pre IH]; intros Hn; [reflexivity|].
  pose proof (Hn "" c pre eq_refl) as H0. simpl in H0 |- *. rewrite H0. apply IH.
  intros pre1 c' pre2 E. apply (Hn (String c pre1)). simpl. now rewrite E.
Qed.

(** X2.  [testDir()] throws the [TypeError] of [path.resolve] exactly when
    the test path, backslashes turned into slashes, contains no
    [playground/name/] segment; when it returns, the directory is
    [playground-temp/name] next to [__dirname] for such a segment. *)
Theorem testDir_needs_playground_segment :
  (testDir = Throw (TypeError "path") <->
   ~ exists pre rest name, slash testPath = pre +:+ rest /\ playground_prefix rest name)
  /\ (forall dir, testDir = Normal dir ->
        exists pre rest name,
          slash testPath = pre +:+ rest /\ playground_prefix rest name
          /\ dir = path_resolve [dirname; "../playground-temp"; name]).
Proof.
  unfold testDir. split.
  - destruct (exec_leftmost playground_here (slash testPath)) as [name|] eqn:E.
    + split; [discriminate|]. intros Hn. exfalso. apply Hn.
      apply exec_leftmost_Some in E as (pre & rest & Hs & Hh).
      exists pre, rest, name. split; [assumption | now apply playground_here_spec].
    + split; [|reflexivity]. intros _ (pre & rest & name & Hs & Hp).
      apply playground_here_spec in Hp.
      rewrite exec_leftmost_None in E. rewrite (E pre rest Hs) in Hp. discriminate.
  - intros dir. destruct (exec_leftmost playground_here (slash testPath)) as [name|] eqn:E;
      [|discriminate].
    intros [= <-]. apply exec_leftmost_Some in E as (pre & rest & Hs & Hh).
    exists pre, rest, name. repeat split; [assumption | now apply playground_here_spec].
Qed.

(** X3.  The first [playground/name/] segment of the test path decides:
    when no such segment starts before it, [testDir()] is
    [playground-temp/name] for its [name]. *)
Theorem testDir_first_segment (pre rest name : string) :
  slash testPath = pre +:+ rest ->
  playground_prefix rest name ->
  no_match_before playground_here pre rest ->
  testDir = Normal (path_resolve [dirname; "../playground-temp"; name]).
Proof.
  intros Hs Hp Hn. unfold testDir. rewrite Hs, exec_leftmost_skip by assumption.
  apply playground_here_spec in Hp. now rewrite (exec_leftmost_here _ _ _ Hp).
Qed.

End Paths.

(** A Windows test path: [testDir()] is the directory of the suite. *)
Lemma testDir_needs_playground_segment_witness :
  exists pre rest name,
    slash "C:\repo\playground\css\__tests__\css.spec.ts" = pre +:+ rest
    /\ playground_prefix rest name
    /\ "/repo/playground-temp/css"
       = Sample.resolve ["/repo/playground"; "../playground-temp"; name].
Proof.
  apply (proj2 (@testDir_needs_playground_segment
                  (Sample.runtime Sample.serve_env
                     "C:\repo\playground\css\__tests__\css.spec.ts"))).
  reflexivity.
Defined.

Lemma sample_no_match_before :
  no_match_before playground_here "/repo/" "playground/assets/__tests__/assets.spec.ts".
Proof.
  intros pre1 c pre2 E.
  repeat (destruct pre1 as [|? pre1];
          [injection E as <- <-; reflexivity | injection E as _ E]).
  destruct pre1; discriminate.
Qed.

Lemma testDir_first_segment_witness :
  @testDir Sample.serve = Normal "/repo/playground-temp/assets".
Proof.
  apply (@testDir_first_segment Sample.serve "/repo/"
           "playground/assets/__tests__/assets.spec.ts" "assets").
  - reflexivity.
  - exists "__tests__/assets.spec.ts". split; [reflexivity|]. split; [discriminate | reflexivity].
  - exact sample_no_match_before.
Defined.

(** A path without backslashes. *)
Lemma slash_normal_form_witness :
  ~ occurs_in "\" "src/main.ts" /\ slash "src/main.ts" = "src/main.ts".
Proof.
  assert (Hn : ~ occurs_in "\" "src/main.ts")
    by (rewrite <- includes_spec; vm_compute; discriminate).
  split; [exact Hn|].
  exact (proj2 (proj2 (proj2 (slash_normal_form "src/main.ts"))) Hn).
Defined.

(** ** The colour table and [rgbToHex] *)

Section ColourDetails.
Context `{Runtime}.

(** X4.  A hex value is a key of [hexToNameMap] exactly when some name of
    the colour table has it, and the name stored under it is always a name
    of the table with that hex value. *)
Theorem hexToNameMap_domain (hex : string) :
  (hexToNameMap !! hex = None <->
   forall name, In name (Object_keys colors) -> obj_get colors name <> Some hex)
  /\ (forall name, hexToNameMap !! hex = Some name ->
        In name (Object_keys colors) /\ obj_get colors name = Some hex).
Proof.
  split; [apply hexToNameMap_None | intros name; apply hexToNameMap_Some].
Qed.

(** X5.  When several names of the colour table have the same hex value,
    the last of them in the order of the table is the one [hexToNameMap]
    keeps. *)
Theorem hexToNameMap_last_name (before : list string) (name : string)
    (rest : list string) (hex : string) :
  Object_keys colors = (before ++ name :: rest)%list ->
  obj_get colors name = Some hex ->
  (forall k, In k rest -> obj_get colors k <> Some hex) ->
  hexToNameMap !! hex = Some name.
Proof.
  intros Hk Hg Hrest. unfold hexToNameMap. rewrite Hk, foldl_app. cbn [foldl].
  rewrite store_all_None by assumption.
  rewrite Hg. apply lookup_insert_eq.
Qed.

Lemma length_append (a b : string) :
  String.length (a +:+ b) = String.length a + String.length b.
Proof. induction a as [|c a IH]; simpl; [reflexivity | now rewrite IH]. Qed.

(** X6.  A number below 256 becomes exactly two lower-case hexadecimal
    digits, padded with [0] when one would do, and these digits denote the
    number. *)
Theorem componentToHex_byte (n : N) :
  (n < 256)%N ->
  componentToHex (Int n) = hex_byte n
  /\ String.length (componentToHex (Int n)) = 2
  /\ hex_value 0 (componentToHex (Int n)) = n.
Proof.
  intros Hn. rewrite (componentToHex_below_256 n Hn). split; [reflexivity|].
  split; [reflexivity|].
  unfold hex_byte. simpl.
  rewrite !hex_digit_value_digit
    by (apply N.mod_lt || apply N.Div0.div_lt_upper_bound; lia).
  pose proof (N.div_mod n 16). lia.
Qed.

(** X7.  On a text that starts with [rgb(R, G, B)], whatever follows it,
    with the three numbers below 256, [rgbToHex] is [#] followed by the
    two hexadecimal digits of each number: leading zeros and the white
    space after the commas do not matter. *)
Theorem rgbToHex_components (s rs gs bs : string) :
  rgb_prefix s rs gs bs ->
  (decimal_value 0 rs < 256)%N ->
  (decimal_value 0 gs < 256)%N ->
  (decimal_value 0 bs < 256)%N ->
  rgbToHex s = "#" +:+ hex_byte (decimal_value 0 rs)
                   +:+ hex_byte (decimal_value 0 gs)
                   +:+ hex_byte (decimal_value 0 bs).
Proof.
  intros Hp Hr Hg Hb. unfold rgbToHex. rewrite (rgb_prefix_exec _ _ _ _ Hp).
  destruct Hp as (w1 & w2 & post & _ & Dr & Dg & Db & _).
  rewrite !parseInt10_digit_run by (assumption || lia).
  now rewrite !componentToHex_below_256 by assumption.
Qed.

(** X8.  Text before the first [rgb(R, G, B)] is skipped: when no match
    starts inside [pre], [rgbToHex] of [pre] followed by [rest] is
    [rgbToHex] of [rest]. *)
Theorem rgbToHex_skips_prefix (pre rest : string) :
  no_match_before rgb_here pre rest ->
  rgbToHex (pre +:+ rest) = rgbToHex rest.
Proof.
  intros Hn. unfold rgbToHex. now rewrite exec_leftmost_skip.
Qed.

End ColourDetails.

Section ColourOverflow.
Context `{Runtime}.

Lemma hex_digits_nonempty (fuel : nat) (n : N) :
  1 <= String.length (hex_digits fuel n "").
Proof.
  destruct fuel as [|fuel]; simpl; [lia|].
  destruct (n / 16 =? 0)%N; simpl; [lia|].
  rewrite hex_digits_acc, length_append. simpl. lia.
Qed.

Lemma toString16_long (n : N) :
  (256 <= n)%N -> 3 <= String.length (Number_toString16 (Int n)).
Proof.
  intros Hn. simpl.
  assert (8 <= N.log2 n)%N as Hlog
    by (change 8%N with (N.log2 256); now apply N.log2_le_mono).
  destruct (N.to_nat (N.log2 n)) as [|[|fuel]] eqn:Ef; [lia | lia |].
  cbn [hex_digits].
  assert (n / 16 <> 0)%N as H1.
  { intros E. apply N.div_small_iff in E; lia. }
  assert (n / 16 / 16 <> 0)%N as H2.
  { intros E. apply N.div_small_iff in E; [|lia].
    assert (16 <= n / 16)%N by (apply N.div_le_lower_bound; lia). lia. }
  apply N.eqb_neq in H1, H2. rewrite H1, H2.
  destruct fuel as [|fuel]; cbn [hex_digits]; simpl.
  - lia.
  - destruct (n / 16 / 16 / 16 =? 0)%N; simpl; [lia|].
    rewrite hex_digits_acc, length_append. simpl. lia.
Qed.

Lemma componentToHex_length (n : N) :
  2 <= String.length (componentToHex (Int n))
  /\ ((256 <= n)%N -> 3 <= String.length (componentToHex (Int n))).
Proof.
  unfold componentToHex. split.
  - pose proof (hex_digits_nonempty (N.to_nat (N.log2 n)) n) as Hl.
    change (hex_digits (N.to_nat (N.log2 n)) n "") with (Number_toString16 (Int n)) in Hl.
    destruct (Nat.eqb_spec (String.length (Number_toString16 (Int n))) 1) as [E|E].
    + rewrite length_append, E. simpl. lia.
    + lia.
  - intros Hn. pose proof (toString16_long n Hn) as Hl.
    destruct (Nat.eqb_spec (String.length (Number_toString16 (Int n))) 1) as [E|E]; lia.
Qed.

(** X9.  [rgbToHex] does not clamp: on a text that starts with
    [rgb(R, G, B)] where one of the numbers is 256 or more, the result has
    more than the seven characters of [#rrggbb]. *)
Theorem rgbToHex_not_clamped (s rs gs bs : string) :
  rgb_prefix s rs gs bs ->
  (decimal_value 0 rs < 2 ^ 53)%N ->
  (decimal_value 0 gs < 2 ^ 53)%N ->
  (decimal_value 0 bs < 2 ^ 53)%N ->
  (256 <= decimal_value 0 rs \/ 256 <= decimal_value 0 gs \/ 256 <= decimal_value 0 bs)%N ->
  7 < String.length (rgbToHex s).
Proof.
  intros Hp Hr Hg Hb Hbig. unfold rgbToHex. rewrite (rgb_prefix_exec _ _ _ _ Hp).
  destruct Hp as (w1 & w2 & post & _ & Dr & Dg & Db & _).
  rewrite !parseInt10_digit_run by assumption.
  rewrite !length_append. cbn [String.length].
  destruct (componentToHex_length (decimal_value 0 rs)) as [R2 R3].
  destruct (componentToHex_length (decimal_value 0 gs)) as [G2 G3].
  destruct (componentToHex_length (decimal_value 0 bs)) as [B2 B3].
  destruct Hbig as [Hbig|[Hbig|Hbig]];
    [specialize (R3 Hbig) | specialize (G3 Hbig) | specialize (B3 Hbig)]; lia.
Qed.

(** X10.  [getColor] changes nothing in the world, whatever it returns;
    for a selector that matches no element it throws the [TypeError] of
    calling [evaluate] on [null]. *)
Theorem getColor_reads_only (el : string + ElementHandle) (w : World) :
  snd (getColor el w) = w
  /\ (forall selector, el = inl selector -> page_query selector = Normal None ->
        fst (getColor el w) = Throw (TypeError "evaluate")).
Proof.
  unfold getColor, bind, toEl, lift, ret, throw. split.
  - destruct el as [selector|handle].
    + destruct (page_query selector) as [[h|]|e]; try reflexivity.
      destruct (computed_color h); reflexivity.
    + destruct (computed_color handle); reflexivity.
  - intros selector -> Hq. now rewrite Hq.
Qed.

End ColourOverflow.

(** [aqua] and [cyan] share [#00ffff]; [cyan] comes later in the table. *)
Lemma hexToNameMap_last_name_witness :
  @hexToNameMap Sample.serve !! "#00ffff" = Some "cyan".
Proof.
  apply (@hexToNameMap_last_name Sample.serve ["aqua"; "black"; "blue"] "cyan"
           ["red"; "white"]).
  - reflexivity.
  - reflexivity.
  - intros k [<-|[<-|[]]]; discriminate.
Defined.

(** [#123456] is no colour of the sample table, so [red] does not have
    it. *)
Lemma hexToNameMap_domain_witness :
  @hexToNameMap Sample.serve !! "#123456" = None
  /\ obj_get Sample.css_colors "red" <> Some "#123456".
Proof.
  split; [reflexivity|].
  apply (proj1 (proj1 (@hexToNameMap_domain Sample.serve "#123456")) eq_refl "red").
  simpl. tauto.
Defined.

(** 10 is written [0a]. *)
Lemma componentToHex_byte_witness :
  componentToHex (Int 10) = "0a"
  /\ String.length (componentToHex (Int 10)) = 2
  /\ hex_value 0 (componentToHex (Int 10)) = 10%N.
Proof. apply (componentToHex_byte 10). reflexivity. Defined.

Lemma sample_rgb_prefix :
  rgb_prefix "rgb(255,  007, 10) none repeat scroll" "255" "007" "10".
Proof.
  exists "  ", " ", " none repeat scroll".
  split; [reflexivity|]. repeat split; discriminate.
Qed.

(** A computed background: no space, two spaces and a leading zero. *)
Lemma rgbToHex_components_witness :
  @rgbToHex Sample.serve "rgb(255,  007, 10) none repeat scroll" = "#ff070a".
Proof.
  apply (@rgbToHex_components Sample.serve _ "255" "007" "10").
  - exact sample_rgb_prefix.
  - reflexivity.
  - reflexivity.
  - reflexivity.
Defined.

Lemma sample_rgb_no_match_before : no_match_before rgb_here "color: " "rgb(1, 2, 3)".
Proof.
  intros pre1 c pre2 E.
  repeat (destruct pre1 as [|? pre1];
          [injection E as <- <-; reflexivity | injection E as _ E]).
  destruct pre1; discriminate.
Qed.

Lemma rgbToHex_skips_prefix_witness :
  @rgbToHex Sample.serve "color: rgb(1, 2, 3)" = @rgbToHex Sample.serve "rgb(1, 2, 3)".
Proof.
  apply (@rgbToHex_skips_prefix Sample.serve "color: " "rgb(1, 2, 3)").
  exact sample_rgb_no_match_before.
Defined.

Lemma sample_rgb_prefix_big : rgb_prefix "rgb(256, 0, 0)" "256" "0" "0".
Proof.
  exists " ", " ", "". split; [reflexivity|]. repeat split; discriminate.
Qed.

(** [rgb(256, 0, 0)] gives [#1000000], eight characters. *)
Lemma rgbToHex_not_clamped_witness :
  7 < String.length (@rgbToHex Sample.serve "rgb(256, 0, 0)").
Proof.
  apply (@rgbToHex_not_clamped Sample.serve _ "256" "0" "0").
  - exact sample_rgb_prefix_big.
  - reflexivity.
  - reflexivity.
  - reflexivity.
  - left. vm_compute. discriminate.
Defined.

(** The sample page resolves no selector. *)
Lemma getColor_reads_only_witness :
  fst (@getColor Sample.serve (inl ".missing") Sample.world)
  = Throw (TypeError "evaluate").
Proof.
  apply (proj2 (@getColor_reads_only Sample.serve (inl ".missing") Sample.world)
           ".missing"); reflexivity.
Defined.

(** ** [editFile], [readFile] and the asset helpers *)

Section FileDetails.
Context `{Runtime}.

Lemma writeFileSync_run (path content old : string) (w : World) :
  fs w !! path = Some (File old) ->
  writeFileSync path content w
  = (Normal tt, mkWorld (<[path := File content]> (fs w)) (trace w ++ [EvWrite path content])).
Proof.
  intros Hf. unfold writeFileSync, bind. rewrite emit_run. simpl. now rewrite Hf.
Qed.

Lemma editFile_run (filename : string) (replacer : string -> completion string)
    (runInBuild : option bool) (dir : string) (w : World) :
  isBuild && negb (default false runInBuild) = false ->
  testDir = Normal dir ->
  editFile filename replacer runInBuild w
  = bind (readFileSync (path_resolve [dir; filename]))
      (fun content => bind (lift (replacer content))
                        (fun modified => writeFileSync (path_resolve [dir; filename]) modified))
      w.
Proof.
  intros Hg Hd. unfold editFile. rewrite Hg. unfold bind at 1, lift at 1. now rewrite Hd.
Qed.

(** X11.  Outside the build-mode guard, [editFile] on an existing file
    reads it once and writes the replacer's result once: afterwards the
    file holds that result and every other path of the file system is as
    before. *)
Theorem editFile_rewrites_file (filename : string) (replacer : string -> completion string)
    (runInBuild : option bool) (dir content modified : string) (w : World) :
  let path := path_resolve [dir; filename] in
  isBuild && negb (default false runInBuild) = false ->
  testDir = Normal dir ->
  fs w !! path = Some (File content) ->
  replacer content = Normal modified ->
  exists w',
    editFile filename replacer runInBuild w = (Normal tt, w')
    /\ trace w' = (trace w ++ [EvRead path; EvWrite path modified])%list
    /\ fs w' !! path = Some (File modified)
    /\ (forall other, other <> path -> fs w' !! other = fs w !! other).
Proof.
  intros path Hg Hd Hf Hr. rewrite (editFile_run _ _ _ dir) by assumption. fold path.
  unfold bind at 1. rewrite (readFileSync_run path content) by assumption.
  unfold bind at 1, lift at 1. rewrite Hr.
  rewrite (writeFileSync_run path modified content) by assumption.
  eexists. split; [reflexivity|]. cbn [fs trace after]. split.
  - now rewrite <- app_assoc.
  - split; [apply lookup_insert_eq|]. intros other Hne. now apply lookup_insert_ne.
Qed.

(** X12.  Outside the build-mode guard, what [editFile] wrote to an
    existing file is what [readFile] returns next, for the same file
    name. *)
Theorem editFile_then_readFile (filename : string) (replacer : string -> completion string)
    (runInBuild : option bool) (dir content modified : string) (w : World) :
  isBuild && negb (default false runInBuild) = false ->
  testDir = Normal dir ->
  fs w !! path_resolve [dir; filename] = Some (File content) ->
  replacer content = Normal modified ->
  fst (readFile filename (snd (editFile filename replacer runInBuild w))) = Normal modified.
Proof.
  intros Hg Hd Hf Hr. rewrite (editFile_run _ _ _ dir) by assumption.
  unfold bind at 1. rewrite (readFileSync_run _ content) by assumption.
  unfold bind at 1, lift at 1. rewrite Hr.
  rewrite (writeFileSync_run _ modified content) by assumption. cbn [snd].
  unfold readFile. unfold bind at 1, lift at 1. rewrite Hd.
  rewrite (readFileSync_run _ modified); [reflexivity|]. apply lookup_insert_eq.
Qed.

(** X13.  Outside the build-mode guard, [editFile] on a path that names
    no file throws the error of the read, whatever the file system reports
    for that path; the replacer's result is never written. *)
Theorem editFile_missing_file (filename : string) (replacer : string -> completion string)
    (runInBuild : option bool) (dir : string) (w : World) :
  let path := path_resolve [dir; filename] in
  isBuild && negb (default false runInBuild) = false ->
  testDir = Normal dir ->
  fs w !! path = None ->
  exists e, editFile filename replacer runInBuild w = (Throw e, after w [EvRead path]).
Proof.
  intros path Hg Hd Hf. rewrite (editFile_run _ _ _ dir) by assumption. fold path.
  unfold bind at 1. rewrite (readFileSync_absent path) by assumption. eauto.
Qed.

Lemma readFileSync_fs (path : string) (w : World) :
  fs (snd (readFileSync path w)) = fs w.
Proof.
  unfold readFileSync, bind. rewrite emit_run. simpl.
  destruct (fs w !! path) as [[c|l]|]; reflexivity.
Qed.

Lemma readdirSync_fs (path : string) (w : World) :
  fs (snd (readdirSync path w)) = fs w.
Proof.
  unfold readdirSync, bind. rewrite emit_run. simpl.
  destruct (fs w !! path) as [[c|l]|]; reflexivity.
Qed.

(** X14.  When the replacer throws, [editFile] lets its exception through
    and writes nothing: the file was read, and the file system is as it
    was. *)
Theorem editFile_replacer_throws (filename : string) (replacer : string -> completion string)
    (runInBuild : option bool) (dir content : string) (e : Error) (w : World) :
  let path := path_resolve [dir; filename] in
  isBuild && negb (default false runInBuild) = false ->
  testDir = Normal dir ->
  fs w !! path = Some (File content) ->
  replacer content = Throw e ->
  editFile filename replacer runInBuild w = (Throw e, after w [EvRead path]).
Proof.
  intros path Hg Hd Hf Hr. rewrite (editFile_run _ _ _ dir) by assumption. fold path.
  unfold bind at 1. rewrite (readFileSync_run path content) by assumption.
  unfold bind, lift. now rewrite Hr.
Qed.

(** X15.  [readFile], [listAssets] and [findAssetFile] never change the
    file system, whether they return or throw. *)
Theorem readers_keep_files (filename : string) (m : string + RegExp)
    (base : option string) (w : World) :
  fs (snd (readFile filename w)) = fs w
  /\ fs (snd (listAssets base w)) = fs w
  /\ fs (snd (findAssetFile m base w)) = fs w.
Proof.
  split; [|split].
  - unfold readFile. unfold bind, lift. destruct testDir as [dir|e]; [|reflexivity].
    apply readFileSync_fs.
  - unfold listAssets. unfold bind, lift. destruct testDir as [dir|e]; [|reflexivity].
    apply readdirSync_fs.
  - unfold findAssetFile. unfold bind at 1, lift at 1.
    destruct testDir as [dir|e]; [|reflexivity].
    unfold bind at 1.
    pose proof (readdirSync_fs (path_join [dir; "dist"; default "" base; "assets"]) w) as Hfs.
    destruct (readdirSync (path_join [dir; "dist"; default "" base; "assets"]) w)
      as [[files|e1] w1]; [|exact Hfs].
    cbn [snd] in Hfs. unfold bind, lift.
    destruct (Array_find (fun file => String_match file m) files) as [[[|c file]|]|e2];
      try exact Hfs.
    rewrite readFileSync_fs. exact Hfs.
Qed.

Lemma readdirSync_absent (path : string) (w : World) :
  fs w !! path = None ->
  readdirSync path w = (Throw (ENOENT path), after w [EvReaddir path]).
Proof.
  intros Hd. unfold readdirSync, bind. rewrite emit_run. simpl. now rewrite Hd.
Qed.

(** X16.  Without a built [assets] directory, [listAssets] and
    [findAssetFile] both throw the error of [readdirSync], whatever the
    file system reports for that path; [findAssetFile] does not fall back
    to the empty string. *)
Theorem assets_directory_missing (m : string + RegExp) (base : option string)
    (dir : string) (w : World) :
  let assetsDir := path_join [dir; "dist"; default "" base; "assets"] in
  testDir = Normal dir ->
  fs w !! assetsDir = None ->
  exists e,
    listAssets base w = (Throw e, after w [EvReaddir assetsDir])
    /\ findAssetFile m base w = (Throw e, after w [EvReaddir assetsDir]).
Proof.
  intros assetsDir Hd Hf. exists (ENOENT assetsDir). split.
  - unfold listAssets. unfold bind, lift. rewrite Hd. fold assetsDir.
    now apply readdirSync_absent.
  - unfold findAssetFile. unfold bind at 1, lift at 1. rewrite Hd.
    unfold bind at 1. fold assetsDir. now rewrite (readdirSync_absent assetsDir).
Qed.

(** X17.  A string that is no valid pattern makes [findAssetFile] throw
    the error of [new RegExp] as soon as the directory has a file to match;
    on an empty directory no pattern is compiled and the result is the
    empty string, for every argument. *)
Theorem findAssetFile_pattern_error (base : option string) (dir : string) (w : World) :
  let assetsDir := path_join [dir; "dist"; default "" base; "assets"] in
  testDir = Normal dir ->
  (forall (pattern : string) (e : Error) (file : string) (files : list string),
      fs w !! assetsDir = Some (Dir (file :: files)) ->
      RegExpCreate pattern = Throw e ->
      findAssetFile (inl pattern) base w = (Throw e, after w [EvReaddir assetsDir]))
  /\ (forall m : string + RegExp,
        fs w !! assetsDir = Some (Dir []) ->
        findAssetFile m base w = (Normal "", after w [EvReaddir assetsDir])).
Proof.
  intros assetsDir Hd. split.
  - intros pattern e file files Hf Hp.
    unfold findAssetFile. unfold bind at 1, lift at 1. rewrite Hd.
    unfold bind at 1. fold assetsDir. rewrite (readdirSync_run _ _ _ Hf).
    unfold bind, lift. cbn [Array_find String_match]. now rewrite Hp.
  - intros m Hf.
    unfold findAssetFile. unfold bind at 1, lift at 1. rewrite Hd.
    unfold bind at 1. fold assetsDir. now rewrite (readdirSync_run _ _ _ Hf).
Qed.

End FileDetails.

(** [index.html] of the sample world gets an exclamation mark. *)
Lemma editFile_rewrites_file_witness :
  exists w',
    @editFile Sample.serve "index.html" (fun s => Normal (s +:+ "!")) None Sample.world
    = (Normal tt, w')
    /\ trace w' = (trace Sample.world
                   ++ [EvRead "/repo/playground-temp/assets/index.html";
                       EvWrite "/repo/playground-temp/assets/index.html" "<h1>assets</h1>!"])%list
    /\ fs w' !! "/repo/playground-temp/assets/index.html" = Some (File "<h1>assets</h1>!")
    /\ (forall other, other <> "/repo/playground-temp/assets/index.html" ->
                      fs w' !! other = fs Sample.world !! other).
Proof.
  apply (@editFile_rewrites_file Sample.serve "index.html" _ None Sample.test_dir
           "<h1>assets</h1>" "<h1>assets</h1>!"); reflexivity.
Defined.

Lemma editFile_then_readFile_witness :
  fst (@readFile Sample.serve "index.html"
         (snd (@editFile Sample.serve "index.html" (fun s => Normal (s +:+ "!")) None
                 Sample.world)))
  = Normal "<h1>assets</h1>!".
Proof.
  apply (@editFile_then_readFile Sample.serve "index.html" _ None Sample.test_dir
           "<h1>assets</h1>" "<h1>assets</h1>!"); reflexivity.
Defined.

Lemma editFile_missing_file_witness :
  exists e,
    @editFile Sample.serve "missing.html" (fun s => Normal s) None Sample.world
    = (Throw e, after Sample.world [EvRead "/repo/playground-temp/assets/missing.html"]).
Proof.
  apply (@editFile_missing_file Sample.serve "missing.html" _ None Sample.test_dir);
    reflexivity.
Defined.

Lemma editFile_replacer_throws_witness :
  @editFile Sample.serve "index.html" (fun _ => Throw (Raised "replacer")) None Sample.world
  = (Throw (Raised "replacer"),
     after Sample.world [EvRead "/repo/playground-temp/assets/index.html"]).
Proof.
  apply (@editFile_replacer_throws Sample.serve "index.html" _ None Sample.test_dir
           "<h1>assets</h1>"); reflexivity.
Defined.

(** The sample world has no [dist/lib/assets]. *)
Lemma assets_directory_missing_witness :
  exists e,
    @listAssets Sample.serve (Some "lib") Sample.world
    = (Throw e, after Sample.world [EvReaddir "/repo/playground-temp/assets/dist/lib/assets"])
    /\ @findAssetFile Sample.serve (inl "index") (Some "lib") Sample.world
       = (Throw e,
          after Sample.world [EvReaddir "/repo/playground-temp/assets/dist/lib/assets"]).
Proof.
  apply (@assets_directory_missing Sample.serve (inl "index") (Some "lib") Sample.test_dir);
    reflexivity.
Defined.

(** An unbalanced parenthesis is no pattern. *)
Lemma findAssetFile_pattern_error_witness :
  @findAssetFile Sample.serve (inl "(") None Sample.world
  = (Throw (SyntaxError "("), after Sample.world [EvReaddir Sample.assets_dir]).
Proof.
  apply (proj1 (@findAssetFile_pattern_error Sample.serve None Sample.test_dir Sample.world
                  eq_refl) "(" (SyntaxError "(") "index.js" ["index.css"]); reflexivity.
Defined.

(** ** More on [untilUpdated] *)

Section PollingDetails.
Context `{Runtime}.

(** After [k] missed attempts, a value that matches ends the loop with a
    passing assertion. *)
Lemma loop_match_after (poll : nat -> completion (option string))
    (expected : string) (k remaining tries : nat) (v : option string) (w : World) :
  (forall j, j < k ->
     exists u, poll (tries + j) = Normal u /\ includes (default "" u) expected = false) ->
  poll (tries + k) = Normal v ->
  includes (default "" v) expected = true ->
  tries + k < maxTries ->
  k < remaining ->
  untilUpdated_loop poll expected remaining tries w
  = (Normal tt,
     after w (missed_attempts k ++ [EvPoll; EvExpectToMatch (default "" v) expected])).
Proof.
  revert remaining tries w. induction k as [|k IH]; intros remaining tries w Hmiss Hp Hi Hlt Hrem.
  - destruct remaining as [|r]; [lia|]. rewrite Nat.add_0_r in Hp.
    rewrite (loop_stop _ _ _ _ v) by auto. now rewrite Hi.
  - destruct remaining as [|r]; [lia|].
    destruct (Hmiss 0) as (u & Hu & Hiu); [lia|]. rewrite Nat.add_0_r in Hu.
    rewrite (loop_miss _ _ _ _ u) by (auto; lia).
    rewrite (IH r (S tries)).
    + now rewrite after_after.
    + intros j Hj. destruct (Hmiss (S j)) as (u' & Hu' & Hiu'); [lia|].
      exists u'. split; [|assumption]. now replace (S tries + j) with (tries + S j) by lia.
    + now replace (S tries + k) with (tries + S k) by lia.
    + assumption.
    + lia.
    + lia.
Qed.

Lemma misses_includes (poll : nat -> completion (option string)) (expected : string) (k : nat) :
  (forall j, j < k ->
     exists u, poll j = Normal u /\ ~ occurs_in expected (default "" u)) ->
  forall j, j < k ->
    exists u, poll (0 + j) = Normal u /\ includes (default "" u) expected = false.
Proof.
  intros Hm j Hj. destruct (Hm j Hj) as (u & Hu & Ho). exists u. split; [assumption|].
  apply not_true_is_false. now rewrite includes_spec.
Qed.

(** X18.  Outside the build-mode guard, when the getter's first [k]
    results do not contain the expected substring and the next one does,
    with [k] below the maximum number of attempts, [untilUpdated] returns
    normally after [k + 1] polls and [k] sleeps of 50ms, the last poll
    followed by the passing assertion and by no sleep. *)
Theorem untilUpdated_match_after (poll : nat -> completion (option string))
    (expected : string) (runInBuild : option bool) (k : nat) (v : option string) (w : World) :
  isBuild && negb (default false runInBuild) = false ->
  k < maxTries ->
  (forall j, j < k ->
     exists u, poll j = Normal u /\ ~ occurs_in expected (default "" u)) ->
  poll k = Normal v ->
  occurs_in expected (default "" v) ->
  untilUpdated poll expected runInBuild w
  = (Normal tt,
     after w (missed_attempts k ++ [EvPoll; EvExpectToMatch (default "" v) expected])).
Proof.
  intros Hg Hk Hm Hp Ho. unfold untilUpdated. rewrite Hg.
  apply loop_match_after.
  - now apply misses_includes.
  - exact Hp.
  - now apply includes_spec.
  - lia.
  - lia.
Qed.

(** X19.  Outside the build-mode guard, an exception of the getter is not
    retried: after [k] results that do not match, an exception at the next
    call, within the attempts allowed, ends [untilUpdated] with that
    exception, with no assertion and no further sleep. *)
Theorem untilUpdated_getter_throws (poll : nat -> completion (option string))
    (expected : string) (runInBuild : option bool) (k : nat) (e : Error) (w : World) :
  isBuild && negb (default false runInBuild) = false ->
  k < maxTries ->
  (forall j, j < k ->
     exists u, poll j = Normal u /\ ~ occurs_in expected (default "" u)) ->
  poll k = Throw e ->
  untilUpdated poll expected runInBuild w
  = (Throw e, after w (missed_attempts k ++ [EvPoll])).
Proof.
  intros Hg Hk Hm Hp. unfold untilUpdated. rewrite Hg.
  apply loop_getter_throws_after.
  - now apply misses_includes.
  - exact Hp.
  - lia.
  - lia.
Qed.

(** Whatever the getter does, the loop entered with [remaining] iterations
    to go polls at most [remaining] times and sleeps fewer times than
    that, each time for 50ms; it does nothing else but assert. *)
Lemma loop_bounded (poll : nat -> completion (option string)) (expected : string)
    (remaining tries : nat) (w : World) :
  tries + remaining = maxTries ->
  exists evs,
    snd (untilUpdated_loop poll expected remaining tries w) = after w evs
    /\ count_polls evs <= remaining
    /\ count_sleeps evs <= remaining - 1
    /\ List.Forall (own_event expected) evs.
Proof.
  revert tries w. induction remaining as [|r IH]; intros tries w Ht.
  - exists []. simpl. rewrite after_nil. repeat split; auto.
  - assert (own_event expected EvPoll) as Hpoll by now left.
    assert (forall actual,
               List.Forall (own_event expected) [EvPoll; EvExpectToMatch actual expected])
      as Hstop.
    { intros actual. constructor; [exact Hpoll|]. constructor; [|constructor].
      right; right. now exists actual. }
    destruct (poll tries) as [v|e] eqn:Hp.
    + destruct (includes (default "" v) expected) eqn:Hi.
      * rewrite (loop_stop _ _ _ _ v) by auto.
        exists [EvPoll; EvExpectToMatch (default "" v) expected].
        split; [reflexivity|]. unfold count_polls, count_sleeps; simpl.
        split; [lia|]. split; [lia | apply Hstop].
      * destruct (Nat.eq_dec tries (maxTries - 1)) as [Hl|Hl].
        -- rewrite (loop_stop _ _ _ _ v) by auto.
           exists [EvPoll; EvExpectToMatch (default "" v) expected].
           split; [reflexivity|]. unfold count_polls, count_sleeps; simpl.
           split; [lia|]. split; [lia | apply Hstop].
        -- rewrite (loop_miss _ _ _ _ v) by auto.
           destruct (IH (S tries) (after w [EvPoll; EvSleep 50]))
             as (evs & Hs & Hc & Hz & Hall); [lia|].
           exists ([EvPoll; EvSleep 50] ++ evs)%list.
           rewrite Hs, after_after. split; [reflexivity|].
           unfold count_polls, count_sleeps in *. simpl. split; [lia|]. split; [lia|].
           constructor; [exact Hpoll|]. constructor; [right; now left | exact Hall].
    + rewrite (loop_getter_throws _ _ _ _ e) by assumption.
      exists [EvPoll]. split; [reflexivity|]. unfold count_polls, count_sleeps; simpl.
      split; [lia|]. split; [lia|]. constructor; [exact Hpoll | constructor].
Qed.

(** X20.  For every getter, expected string and mode, [untilUpdated]
    polls at most [maxTries] times and sleeps fewer times than that, and
    every sleep is one of 50ms: what it does itself is only to poll, to
    sleep 50ms and to run the substring assertion on the expected
    string. *)
Theorem untilUpdated_bounded (poll : nat -> completion (option string))
    (expected : string) (runInBuild : option bool) (w : World) :
  exists evs,
    snd (untilUpdated poll expected runInBuild w) = after w evs
    /\ count_polls evs <= maxTries
    /\ count_sleeps evs <= maxTries - 1
    /\ List.Forall (own_event expected) evs.
Proof.
  unfold untilUpdated. destruct (isBuild && negb (default false runInBuild)).
  - exists []. simpl. rewrite after_nil.
    repeat split; auto; unfold count_polls, count_sleeps; simpl; lia.
  - exact (loop_bounded poll expected maxTries 0 w eq_refl).
Qed.

End PollingDetails.

(** A value that changes at the third call. *)
Lemma untilUpdated_match_after_witness :
  @untilUpdated Sample.serve
    (fun k => Normal (Some (if (k <? 2)%nat then "old" else "new"))) "new" None Sample.world
  = (Normal tt,
     after Sample.world (missed_attempts 2 ++ [EvPoll; EvExpectToMatch "new" "new"])).
Proof.
  apply (@untilUpdated_match_after Sample.serve _ "new" None 2 (Some "new")).
  - reflexivity.
  - vm_compute. lia.
  - intros j Hj. exists (Some "old"). split.
    + destruct j as [|[|j]]; [reflexivity | reflexivity | lia].
    + rewrite <- includes_spec. vm_compute. discriminate.
  - reflexivity.
  - exists "", "". reflexivity.
Defined.

(** A getter that fails at its second call. *)
Lemma untilUpdated_getter_throws_witness :
  @untilUpdated Sample.serve
    (fun k => if (k <? 1)%nat then Normal (Some "old") else Throw (Raised "getter"))
    "new" None Sample.world
  = (Throw (Raised "getter"), after Sample.world (missed_attempts 1 ++ [EvPoll])).
Proof.
  apply (@untilUpdated_getter_throws Sample.serve _ "new" None 1).
  - reflexivity.
  - vm_compute. lia.
  - intros j Hj. exists (Some "old"). split.
    + destruct j as [|j]; [reflexivity | lia].
    + rewrite <- includes_spec. vm_compute. discriminate.
  - reflexivity.
Defined.

(** ** The life cycle of the test environment *)

Section LifeCycle.
Context `{Runtime}.
Import PlaywrightEnvironment.

Lemma emit_then_lift {A} (e : Event) (c : completion A) (w : World) :
  bind (emit e) (fun _ => lift c) w = (c, after w [e]).
Proof. reflexivity. Qed.

(** [setup] up to the test on the test path, when the base [setup]
    returns and the endpoint file has contents. *)
Lemma setup_reaches_test (this : t) (w : World) (c : ascii) (ws : string) :
  super_setup = Normal tt ->
  fs w !! path_join [DIR; "wsEndpoint"] = Some (File (String c ws)) ->
  setup (this, w)
  = (if negb (includes (this_testPath this) "playground") then ret tt
     else
       bind (in_world (bind (emit (EvConnect (String c ws)))
                         (fun _ => lift (chromium_connect (String c ws)))))
         (fun browser =>
            bind (this_set (fun o => mk (this_testPath o) (Some browser)
                                        (global_page o) (warn_wrapped o)))
              (fun _ =>
                 bind (in_world (bind (emit EvNewPage)
                                   (fun _ => lift (browser_newPage browser))))
                   (fun page =>
                      this_set (fun o => mk (this_testPath o) (this_browser o)
                                            (Some page) true)))))
      (this, after w [EvSuperSetup; EvRead (path_join [DIR; "wsEndpoint"])]).
Proof.
  intros Hs Hf. unfold setup.
  unfold bind at 1. rewrite in_world_run, base_setup_run, Hs. cbn [fst snd].
  unfold bind at 1. rewrite in_world_run.
  rewrite (readFileSync_run _ (String c ws)) by exact Hf. cbn [fst snd].
  rewrite after_after. reflexivity.
Qed.

Lemma teardown_without_browser (this : t) (w : World) :
  this_browser this = None ->
  teardown (this, w) = (super_teardown, (this, after w [EvSuperTeardown])).
Proof.
  intros Hb. unfold teardown. unfold bind at 1. cbn [this_get]. rewrite Hb.
  unfold bind at 1. cbn [ret]. now rewrite in_world_run, emit_then_lift.
Qed.

Lemma teardown_with_browser (this : t) (browser : Browser) (w : World) :
  this_browser this = Some browser ->
  teardown (this, w)
  = match browser_close browser with
    | Normal _ => (super_teardown, (this, after w [EvClose; EvSuperTeardown]))
    | Throw e => (Throw e, (this, after w [EvClose]))
    end.
Proof.
  intros Hb. unfold teardown. unfold bind at 1. cbn [this_get]. rewrite Hb.
  unfold bind at 1. rewrite in_world_run, emit_then_lift. cbn [fst snd].
  destruct (browser_close browser) as [[]|e]; [|reflexivity].
  rewrite in_world_run, emit_then_lift. cbn [fst snd]. now rewrite after_after.
Qed.

(** X21.  For a test file outside the playground group, with the endpoint
    file in place, [setup] returns without connecting to the browser and
    leaves the object as constructed; [teardown] then closes nothing and
    only runs the base [teardown]. *)
Theorem environment_outside_playground (context_testPath : string) (w : World)
    (c : ascii) (ws : string) :
  let endpoint := path_join [DIR; "wsEndpoint"] in
  let this := new_environment context_testPath in
  super_setup = Normal tt ->
  fs w !! endpoint = Some (File (String c ws)) ->
  ~ occurs_in "playground" context_testPath ->
  setup (this, w) = (Normal tt, (this, after w [EvSuperSetup; EvRead endpoint]))
  /\ teardown (this, after w [EvSuperSetup; EvRead endpoint])
     = (super_teardown, (this, after w [EvSuperSetup; EvRead endpoint; EvSuperTeardown])).
Proof.
  intros endpoint this Hs Hf Hn. split.
  - rewrite (setup_reaches_test this w c ws Hs Hf).
    assert (includes context_testPath "playground" = false) as Hi
      by (apply not_true_is_false; now rewrite includes_spec).
    cbn [this this_testPath new_environment]. now rewrite Hi.
  - rewrite teardown_without_browser by reflexivity. now rewrite after_after.
Qed.

(** X22.  For a playground test, [setup] connects to the browser at the
    address read from the endpoint file, opens one page, and keeps the
    browser and the page in the object, with [console.warn] wrapped;
    [teardown] then closes that browser, once, and runs the base
    [teardown]. *)
Theorem environment_in_playground (this : t) (w : World) (c : ascii) (ws : string)
    (browser : Browser) (page : Page) :
  let endpoint := path_join [DIR; "wsEndpoint"] in
  let ready := mk (this_testPath this) (Some browser) (Some page) true in
  super_setup = Normal tt ->
  fs w !! endpoint = Some (File (String c ws)) ->
  occurs_in "playground" (this_testPath this) ->
  chromium_connect (String c ws) = Normal browser ->
  browser_newPage browser = Normal page ->
  browser_close browser = Normal tt ->
  setup (this, w)
  = (Normal tt,
     (ready, after w [EvSuperSetup; EvRead endpoint; EvConnect (String c ws); EvNewPage]))
  /\ teardown (ready, after w [EvSuperSetup; EvRead endpoint;
                               EvConnect (String c ws); EvNewPage])
     = (super_teardown,
        (ready, after w [EvSuperSetup; EvRead endpoint; EvConnect (String c ws);
                         EvNewPage; EvClose; EvSuperTeardown])).
Proof.
  intros endpoint ready Hs Hf Ho Hc Hp Hx. split.
  - rewrite (setup_reaches_test this w c ws Hs Hf).
    apply includes_spec in Ho. rewrite Ho. cbn [negb].
    unfold bind at 1. rewrite in_world_run, emit_then_lift, Hc. cbn [fst snd].
    unfold bind at 1. cbn [this_set].
    unfold bind at 1. rewrite in_world_run, emit_then_lift, Hp. cbn [fst snd this_set].
    now rewrite !after_after.
  - rewrite (teardown_with_browser ready browser) by reflexivity.
    now rewrite Hx, after_after.
Qed.

(** X23.  When the connection is refused, [setup] throws that error with
    the object unchanged; when the connection is made and the page cannot
    be opened, [setup] throws with the browser already kept in the object,
    so that [teardown] will close it. *)
Theorem setup_browser_failures (this : t) (w : World) (c : ascii) (ws : string)
    (e : Error) :
  let endpoint := path_join [DIR; "wsEndpoint"] in
  super_setup = Normal tt ->
  fs w !! endpoint = Some (File (String c ws)) ->
  occurs_in "playground" (this_testPath this) ->
  (chromium_connect (String c ws) = Throw e ->
   setup (this, w)
   = (Throw e, (this, after w [EvSuperSetup; EvRead endpoint; EvConnect (String c ws)])))
  /\ (forall browser,
        chromium_connect (String c ws) = Normal browser ->
        browser_newPage browser = Throw e ->
        setup (this, w)
        = (Throw e,
           (mk (this_testPath this) (Some browser) (global_page this) (warn_wrapped this),
            after w [EvSuperSetup; EvRead endpoint; EvConnect (String c ws); EvNewPage]))).
Proof.
  intros endpoint Hs Hf Ho. apply includes_spec in Ho. split.
  - intros Hc. rewrite (setup_reaches_test this w c ws Hs Hf), Ho. cbn [negb].
    unfold bind at 1. rewrite in_world_run, emit_then_lift, Hc. cbn [fst snd].
    now rewrite after_after.
  - intros browser Hc Hp. rewrite (setup_reaches_test this w c ws Hs Hf), Ho. cbn [negb].
    unfold bind at 1. rewrite in_world_run, emit_then_lift, Hc. cbn [fst snd].
    unfold bind at 1. cbn [this_set].
    unfold bind at 1. rewrite in_world_run, emit_then_lift, Hp. cbn [fst snd].
    now rewrite !after_after.
Qed.

(** X24.  [teardown] closes the browser the object holds, once, before the
    base [teardown]; if closing throws, the base [teardown] is not run;
    without a browser nothing is closed. *)
Theorem teardown_closes_browser (this : t) (w : World) :
  (forall browser,
      this_browser this = Some browser ->
      browser_close browser = Normal tt ->
      teardown (this, w) = (super_teardown, (this, after w [EvClose; EvSuperTeardown])))
  /\ (forall browser e,
        this_browser this = Some browser ->
        browser_close browser = Throw e ->
        teardown (this, w) = (Throw e, (this, after w [EvClose])))
  /\ (this_browser this = None ->
      teardown (this, w) = (super_teardown, (this, after w [EvSuperTeardown]))).
Proof.
  split; [|split].
  - intros browser Hb Hc. now rewrite (teardown_with_browser this browser w Hb), Hc.
  - intros browser e Hb Hc. now rewrite (teardown_with_browser this browser w Hb), Hc.
  - apply teardown_without_browser.
Qed.

End LifeCycle.

(** A unit test of the sample repository: no browser is involved. *)
Lemma environment_outside_playground_witness :
  @PlaywrightEnvironment.setup Sample.serve
    (@new_environment Sample.serve sample_unit_test, sample_world_ws)
  = (Normal tt,
     (@new_environment Sample.serve sample_unit_test,
      after sample_world_ws [EvSuperSetup; EvRead sample_endpoint]))
  /\ @PlaywrightEnvironment.teardown Sample.serve
       (@new_environment Sample.serve sample_unit_test,
        after sample_world_ws [EvSuperSetup; EvRead sample_endpoint])
     = (Normal tt,
        (@new_environment Sample.serve sample_unit_test,
         after sample_world_ws [EvSuperSetup; EvRead sample_endpoint; EvSuperTeardown])).
Proof.
  apply (@environment_outside_playground Sample.serve sample_unit_test sample_world_ws
           "w" "s://127.0.0.1:9222/devtools").
  - reflexivity.
  - reflexivity.
  - rewrite <- includes_spec. vm_compute. discriminate.
Defined.

(** A playground test of the sample repository. *)
Lemma environment_in_playground_witness :
  @PlaywrightEnvironment.setup Sample.serve
    (@new_environment Sample.serve Sample.test_file, sample_world_ws)
  = (Normal tt,
     (@PlaywrightEnvironment.mk Sample.serve Sample.test_file (Some tt) (Some tt) true,
      after sample_world_ws
        [EvSuperSetup; EvRead sample_endpoint;
         EvConnect "ws://127.0.0.1:9222/devtools"; EvNewPage]))
  /\ @PlaywrightEnvironment.teardown Sample.serve
       (@PlaywrightEnvironment.mk Sample.serve Sample.test_file (Some tt) (Some tt) true,
        after sample_world_ws
          [EvSuperSetup; EvRead sample_endpoint;
           EvConnect "ws://127.0.0.1:9222/devtools"; EvNewPage])
     = (Normal tt,
        (@PlaywrightEnvironment.mk Sample.serve Sample.test_file (Some tt) (Some tt) true,
         after sample_world_ws
           [EvSuperSetup; EvRead sample_endpoint;
            EvConnect "ws://127.0.0.1:9222/devtools"; EvNewPage;
            EvClose; EvSuperTeardown])).
Proof.
  apply (@environment_in_playground Sample.serve
           (@new_environment Sample.serve Sample.test_file) sample_world_ws
           "w" "s://127.0.0.1:9222/devtools" tt tt); try reflexivity.
  exists "/repo/", "/assets/__tests__/assets.spec.ts". reflexivity.
Defined.

(** A browser that accepts the connection and refuses the page. *)
Lemma setup_browser_failures_witness :
  @PlaywrightEnvironment.setup (sample_browser true false)
    (@new_environment (sample_browser true false) Sample.test_file, sample_world_ws)
  = (Throw (Raised "newPage"),
     (@PlaywrightEnvironment.mk (sample_browser true false) Sample.test_file
        (Some tt) None false,
      after sample_world_ws
        [EvSuperSetup; EvRead sample_endpoint;
         EvConnect "ws://127.0.0.1:9222/devtools"; EvNewPage])).
Proof.
  apply (proj2 (@setup_browser_failures (sample_browser true false)
                  (@new_environment (sample_browser true false) Sample.test_file)
                  sample_world_ws "w" "s://127.0.0.1:9222/devtools" (Raised "newPage")
                  eq_refl eq_refl
                  (ex_intro _ "/repo/" (ex_intro _ "/assets/__tests__/assets.spec.ts" eq_refl)))
           tt); reflexivity.
Defined.

(** The object left by the failed [setup] above still gets its browser
    closed. *)
Lemma teardown_closes_browser_witness :
  @PlaywrightEnvironment.teardown (sample_browser true false)
    (@PlaywrightEnvironment.mk (sample_browser true false) Sample.test_file
       (Some tt) None false, sample_world_ws)
  = (Normal tt,
     (@PlaywrightEnvironment.mk (sample_browser true false) Sample.test_file
        (Some tt) None false,
      after sample_world_ws [EvClose; EvSuperTeardown])).
Proof.
  apply (proj1 (@teardown_closes_browser (sample_browser true false)
                  (@PlaywrightEnvironment.mk (sample_browser true false) Sample.test_file
                     (Some tt) None false) sample_world_ws) tt); reflexivity.
Defined.

(** ** Source maps *)

Section Trimming.

Lemma trimEnd_spaces (ws : string) : space_run ws -> trimEnd ws = "".
Proof.
  unfold space_run. induction ws as [|c ws IH]; simpl; [reflexivity|].
  intros Hs. apply andb_true_iff in Hs as [Hc Hs]. now rewrite IH, Hc.
Qed.

Lemma trimEnd_app_spaces (b ws : string) :
  space_run ws -> trimEnd (b +:+ ws) = trimEnd b.
Proof.
  intros Hs. induction b as [|c b IH]; simpl; [now apply trimEnd_spaces|].
  now rewrite IH.
Qed.

Lemma trimEnd_app_keep (a b : string) :
  trimEnd b <> "" -> trimEnd (a +:+ b) = a +:+ trimEnd b.
Proof.
  intros Hb. induction a as [|c a IH]; simpl; [reflexivity|].
  rewrite IH. destruct (a +:+ trimEnd b) as [|x t] eqn:E; [|reflexivity].
  destruct a; simpl in E; [contradiction | discriminate].
Qed.

Lemma trimStart_before_line (text comment : string) :
  comment <> "" -> trimStart comment = comment ->
  trimStart (text +:+ newline +:+ comment) = comment
  \/ exists y, trimStart (text +:+ newline +:+ comment) = y +:+ newline +:+ comment.
Proof.
  intros Hne Hc. induction text as [|c text IH]; simpl.
  - left. exact Hc.
  - destruct (is_space c); [exact IH|]. right. now exists (String c text).
Qed.

Lemma split_char_nonempty (sep : ascii) (s : string) : split_char sep s <> [].
Proof.
  destruct s as [|c s]; simpl; [discriminate|].
  destruct (Ascii.eqb c sep); [discriminate|].
  destruct (split_char sep s); discriminate.
Qed.

(** Splitting distributes over a separator. *)
Lemma split_char_app (sep : ascii) (a b : string) :
  split_char sep (a +:+ String sep b) = (split_char sep a ++ split_char sep b)%list.
Proof.
  induction a as [|c a IH]; simpl.
  - now rewrite Ascii.eqb_refl.
  - rewrite IH. destruct (Ascii.eqb c sep); [reflexivity|].
    pose proof (split_char_nonempty sep a) as Hn.
    destruct (split_char sep a) as [|l ls]; [contradiction | reflexivity].
Qed.

Lemma split_char_one_line (s : string) : one_line s -> split_char "010" s = [s].
Proof.
  unfold one_line. induction s as [|c s IH]; simpl; [reflexivity|].
  intros Hs. apply andb_true_iff in Hs as [Hc Hs].
  apply negb_true_iff in Hc. now rewrite Hc, IH.
Qed.

Lemma last_app_nonempty {A} (l1 l2 : list A) (d : A) :
  l2 <> [] -> List.last (l1 ++ l2) d = List.last l2 d.
Proof.
  intros Hn. induction l1 as [|x l1 IH]; [reflexivity|].
  simpl. destruct (l1 ++ l2)%list as [|y l] eqn:E; [|exact IH].
  destruct l1; simpl in E; [contradiction | discriminate].
Qed.

End Trimming.

Section SourcemapClaims.
Context `{Runtime} `{Sourcemaps}.

(** X25.  [extractSourcemap] decodes the last non-blank line and nothing
    else: when the content ends with a line [comment] (no white space at
    its ends), followed only by white space and line breaks, the result is
    [fromComment(comment).toObject()] whatever the lines before are. *)
Theorem extractSourcemap_last_line (text comment trailing : string) :
  comment <> "" -> trimmed comment -> one_line comment -> space_run trailing ->
  extractSourcemap (text +:+ newline +:+ comment +:+ trailing)
  = fromComment_toObject comment.
Proof.
  intros Hne [Hts Hte] Hone Htr. unfold extractSourcemap, trim.
  replace (text +:+ newline +:+ comment +:+ trailing)
    with (((text +:+ newline) +:+ comment) +:+ trailing)
    by now rewrite !append_assoc.
  rewrite trimEnd_app_spaces by assumption.
  rewrite trimEnd_app_keep by (rewrite Hte; assumption).
  rewrite Hte, append_assoc. f_equal.
  destruct (trimStart_before_line text comment Hne Hts) as [->|(y & ->)].
  - now rewrite split_char_one_line.
  - unfold newline. cbn [append]. rewrite split_char_app.
    rewrite last_app_nonempty by apply split_char_nonempty.
    now rewrite split_char_one_line.
Qed.

End SourcemapClaims.

(** Code, a source map comment and two trailing line breaks. *)
Lemma extractSourcemap_last_line_witness :
  @extractSourcemap sample_sourcemaps
    ("console.log(1)" +:+ newline +:+ "//# sourceMappingURL=data:abc" +:+ newline +:+ newline)
  = Normal [("comment", JStr "//# sourceMappingURL=data:abc")].
Proof.
  apply (@extractSourcemap_last_line sample_sourcemaps "console.log(1)"
           "//# sourceMappingURL=data:abc" (newline +:+ newline)).
  - discriminate.
  - split; reflexivity.
  - reflexivity.
  - reflexivity.
Defined.

Section Objects.
Context {A : Type}.

Lemma obj_get_delete_eq (o : list (string * A)) (k : string) :
  obj_get (obj_delete o k) k = None.
Proof.
  induction o as [|[k' v] o IH]; simpl; [reflexivity|].
  destruct (String.eqb_spec k' k) as [->|Hne]; [exact IH|].
  simpl. apply String.eqb_neq in Hne. now rewrite Hne.
Qed.

Lemma obj_get_delete_ne (o : list (string * A)) (k k' : string) :
  k' <> k -> obj_get (obj_delete o k) k' = obj_get o k'.
Proof.
  intros Hne. induction o as [|[k0 v] o IH]; simpl; [reflexivity|].
  destruct (String.eqb_spec k0 k) as [->|Hk].
  - rewrite IH. apply not_eq_sym, String.eqb_neq in Hne. now rewrite Hne.
  - simpl. now rewrite IH.
Qed.

Lemma obj_get_update_ne (o : list (string * A)) (k k' : string) (v : A) :
  k' <> k -> obj_get (obj_update o k v) k' = obj_get o k'.
Proof.
  intros Hne. induction o as [|[k0 v0] o IH]; simpl; [reflexivity|].
  destruct (String.eqb_spec k0 k) as [->|Hk]; simpl; rewrite IH; [|reflexivity].
  apply not_eq_sym, String.eqb_neq in Hne. now rewrite Hne.
Qed.

Lemma obj_get_update_eq (o : list (string * A)) (k : string) (v0 v : A) :
  obj_get o k = Some v0 -> obj_get (obj_update o k v) k = Some v.
Proof.
  induction o as [|[k0 v1] o IH]; simpl; [discriminate|].
  destruct (String.eqb k0 k) eqn:E; simpl; rewrite E; [reflexivity | exact IH].
Qed.

Lemma Object_keys_update (o : list (string * A)) (k : string) (v : A) :
  Object_keys (obj_update o k v) = Object_keys o.
Proof.
  unfold Object_keys. induction o as [|[k0 v0] o IH]; simpl; [reflexivity|].
  destruct (String.eqb k0 k); simpl; now rewrite IH.
Qed.

Lemma Object_keys_delete (o : list (string * A)) (k : string) :
  Object_keys (obj_delete o k)
  = List.filter (fun k' => negb (String.eqb k' k)) (Object_keys o).
Proof.
  unfold Object_keys. induction o as [|[k0 v0] o IH]; simpl; [reflexivity|].
  destruct (String.eqb k0 k); simpl; now rewrite IH.
Qed.

End Objects.

Section Replace.

(** A string that starts with the pattern has it replaced there. *)
Lemma replace_first_prefix (pat rest rep : string) :
  replace_first (pat +:+ rest) pat rep = rep +:+ rest.
Proof.
  assert (strip_prefix pat (pat +:+ rest) = Some rest) as E by now apply strip_prefix_spec.
  destruct (pat +:+ rest); simpl; now rewrite E.
Qed.

(** A string in which the pattern does not occur is left as it is. *)
Lemma replace_first_absent (s pat rep : string) :
  ~ occurs_in pat s -> replace_first s pat rep = s.
Proof.
  induction s as [|c s IH]; intros Hn; simpl.
  - destruct (strip_prefix pat "") as [rest|] eqn:E; [|reflexivity].
    apply strip_prefix_spec in E. exfalso. apply Hn. exists "", rest. exact E.
  - destruct (strip_prefix pat (String c s)) as [rest|] eqn:E.
    + apply strip_prefix_spec in E. exfalso. apply Hn. exists "", rest. exact E.
    + rewrite IH; [reflexivity|]. intros (pre & post & ->).
      apply Hn. now exists (String c pre), post.
Qed.

Lemma Array_map_strings (root : string) (paths : list string) :
  Array_map (replace_root root) (map JStr paths)
  = Normal (map (fun p => JStr (replace_first p root "/root")) paths).
Proof.
  induction paths as [|p paths IH]; simpl; [reflexivity | now rewrite IH].
Qed.

Lemma Array_map_not_string (root : string) (before : list string) (x : JsValue)
    (rest : list JsValue) :
  (forall s, x <> JStr s) ->
  Array_map (replace_root root) (map JStr before ++ x :: rest) = Throw (TypeError "replace").
Proof.
  intros Hx. induction before as [|p before IH]; simpl.
  - destruct x; try reflexivity. now destruct (Hx s).
  - now rewrite IH.
Qed.

End Replace.

Section FormatSourcemap.
Context `{Runtime} `{Sourcemaps}.

Lemma sources_after_deletes (map : list (string * JsValue)) :
  obj_get (obj_delete (obj_delete map "file") "names") "sources" = obj_get map "sources".
Proof. now rewrite !obj_get_delete_ne by discriminate. Qed.

(** X26.  On a source map whose [sources] are strings,
    [formatSourcemapForSnapshot] returns a copy without the properties
    [file] and [names]; the other properties keep their order and, except
    for [sources], their values; each source has the first occurrence of
    the normalized test directory replaced by [/root]. *)
Theorem formatSourcemapForSnapshot_shape (map : list (string * JsValue))
    (dir : string) (paths : list string) :
  testDir = Normal dir ->
  obj_get map "sources" = Some (JArr (List.map JStr paths)) ->
  exists m,
    formatSourcemapForSnapshot map = Normal m
    /\ obj_get m "file" = None
    /\ obj_get m "names" = None
    /\ obj_get m "sources"
       = Some (JArr (List.map (fun p => JStr (replace_first p (normalizePath dir) "/root"))
                       paths))
    /\ (forall k, k <> "file" -> k <> "names" -> k <> "sources" ->
                  obj_get m k = obj_get map k)
    /\ Object_keys m
       = List.filter (fun k => negb (String.eqb k "file") && negb (String.eqb k "names"))
           (Object_keys map).
Proof.
  intros Hd Hs. unfold formatSourcemapForSnapshot. rewrite Hd.
  rewrite sources_after_deletes, Hs, Array_map_strings.
  eexists. split; [reflexivity|]. repeat split.
  - rewrite obj_get_update_ne by discriminate.
    rewrite obj_get_delete_ne by discriminate. apply obj_get_delete_eq.
  - rewrite obj_get_update_ne by discriminate. apply obj_get_delete_eq.
  - eapply obj_get_update_eq. rewrite sources_after_deletes. exact Hs.
  - intros k Hf Hn Hk. rewrite obj_get_update_ne by assumption.
    now rewrite !obj_get_delete_ne by assumption.
  - rewrite Object_keys_update, !Object_keys_delete.
    induction (Object_keys map) as [|k ks IH]; simpl; [reflexivity|].
    destruct (String.eqb k "file"); simpl; [exact IH|].
    destruct (String.eqb k "names"); simpl; [exact IH | now rewrite IH].
Qed.

(** X27.  In the result, a source that starts with the normalized test
    directory starts with [/root] instead, and a source in which that
    directory does not occur is unchanged. *)
Theorem formatSourcemapForSnapshot_sources (map : list (string * JsValue))
    (dir : string) (paths : list string) :
  testDir = Normal dir ->
  obj_get map "sources" = Some (JArr (List.map JStr paths)) ->
  exists m paths',
    formatSourcemapForSnapshot map = Normal m
    /\ obj_get m "sources" = Some (JArr (List.map JStr paths'))
    /\ List.Forall2
         (fun p p' =>
            (forall rest, p = normalizePath dir +:+ rest -> p' = "/root" +:+ rest)
            /\ (~ occurs_in (normalizePath dir) p -> p' = p))
         paths paths'.
Proof.
  intros Hd Hs. unfold formatSourcemapForSnapshot. rewrite Hd.
  rewrite sources_after_deletes, Hs, Array_map_strings.
  exists (obj_update (obj_delete (obj_delete map "file") "names") "sources"
            (JArr (List.map (fun p => JStr (replace_first p (normalizePath dir) "/root"))
                     paths))),
         (List.map (fun p => replace_first p (normalizePath dir) "/root") paths).
  split; [reflexivity|]. split.
  - rewrite List.map_map. eapply obj_get_update_eq.
    rewrite sources_after_deletes. exact Hs.
  - clear Hs. induction paths as [|p paths IH]; simpl; constructor; [|exact IH].
    split.
    + intros rest ->. apply replace_first_prefix.
    + apply replace_first_absent.
Qed.

(** X28.  [formatSourcemapForSnapshot] throws a [TypeError] when the map
    has no [sources] array and when one of the sources is not a string,
    and lets the error of [testDir()] through. *)
Theorem formatSourcemapForSnapshot_errors (map : list (string * JsValue)) :
  (forall dir,
      testDir = Normal dir ->
      (forall items, obj_get map "sources" <> Some (JArr items)) ->
      formatSourcemapForSnapshot map = Throw (TypeError "map"))
  /\ (forall dir before x rest,
        testDir = Normal dir ->
        obj_get map "sources" = Some (JArr (List.map JStr before ++ x :: rest)) ->
        (forall s, x <> JStr s) ->
        formatSourcemapForSnapshot map = Throw (TypeError "replace"))
  /\ (forall e, testDir = Throw e -> formatSourcemapForSnapshot map = Throw e).
Proof.
  unfold formatSourcemapForSnapshot. split; [|split].
  - intros dir Hd Hn. rewrite Hd, sources_after_deletes.
    destruct (obj_get map "sources") as [[]|]; try reflexivity.
    now destruct (Hn items).
  - intros dir before x rest Hd Hs Hx.
    rewrite Hd, sources_after_deletes, Hs.
    now rewrite Array_map_not_string.
  - intros e Hd. now rewrite Hd.
Qed.

End FormatSourcemap.

(** The sample source map loses [file] and [names]; its first source is
    under the test directory. *)
Lemma formatSourcemapForSnapshot_shape_witness :
  exists m,
    @formatSourcemapForSnapshot Sample.serve sample_sourcemaps sample_source_map = Normal m
    /\ obj_get m "file" = None
    /\ obj_get m "names" = None
    /\ obj_get m "sources" = Some (JArr [JStr "/root/src/a.ts"; JStr "other.ts"])
    /\ (forall k, k <> "file" -> k <> "names" -> k <> "sources" ->
                  obj_get m k = obj_get sample_source_map k)
    /\ Object_keys m = ["version"; "sources"; "mappings"].
Proof.
  exact (@formatSourcemapForSnapshot_shape Sample.serve sample_sourcemaps sample_source_map
           Sample.test_dir ["/repo/playground-temp/assets/src/a.ts"; "other.ts"]
           eq_refl eq_refl).
Defined.

Lemma formatSourcemapForSnapshot_sources_witness :
  exists m paths',
    @formatSourcemapForSnapshot Sample.serve sample_sourcemaps sample_source_map = Normal m
    /\ obj_get m "sources" = Some (JArr (List.map JStr paths'))
    /\ List.Forall2
         (fun p p' =>
            (forall rest, p = "/repo/playground-temp/assets" +:+ rest ->
                          p' = "/root" +:+ rest)
            /\ (~ occurs_in "/repo/playground-temp/assets" p -> p' = p))
         ["/repo/playground-temp/assets/src/a.ts"; "other.ts"] paths'.
Proof.
  exact (@formatSourcemapForSnapshot_sources Sample.serve sample_sourcemaps
           sample_source_map Sample.test_dir
           ["/repo/playground-temp/assets/src/a.ts"; "other.ts"] eq_refl eq_refl).
Defined.

(** A map without [sources], and one with [null] among its sources. *)
Lemma formatSourcemapForSnapshot_errors_witness :
  @formatSourcemapForSnapshot Sample.serve sample_sourcemaps [("version", JNum 3)]
  = Throw (TypeError "map")
  /\ @formatSourcemapForSnapshot Sample.serve sample_sourcemaps
       [("sources", JArr [JStr "a.ts"; JNull])]
     = Throw (TypeError "replace").
Proof.
  split.
  - apply (proj1 (@formatSourcemapForSnapshot_errors Sample.serve sample_sourcemaps
                    [("version", JNum 3)]) Sample.test_dir); [reflexivity|].
    intros items. discriminate.
  - apply (proj1 (proj2 (@formatSourcemapForSnapshot_errors Sample.serve sample_sourcemaps
                           [("sources", JArr [JStr "a.ts"; JNull])]))
             Sample.test_dir ["a.ts"] JNull []); [reflexivity | reflexivity |].
    intros s. discriminate.
Defined.
